(** * InnovAIte: the idea-generation gateway and its client controller

    A shallow embedding of
    - [supabase/functions/generate-idea/index.ts] (the gateway: one
      request handler passed to [serve]), and
    - the [Index] page component (the controller: [handleGenerate] and
      the conditional rendering of the results and the empty state),
    together with the parts of the JavaScript runtime the two rely on:
    strings as sequences of UTF-16 code units, [JSON.parse], the three
    regular expressions of the gateway, [String.prototype.trim],
    truthiness and [ToString]. *)

From Stdlib Require Import List NArith ZArith Bool Lia String Ascii DecimalString.
Import ListNotations.

Local Open Scope N_scope.
Local Open Scope list_scope.

(** ** JavaScript strings *)

Module JsString.

(** A JavaScript string is a sequence of UTF-16 code units. *)
Definition jsstring := list N.

(** Source literals are written as Rocq strings and converted. *)
Fixpoint str (s : string) : jsstring :=
  match s with
  | EmptyString => []
  | String c r => N_of_ascii c :: str r
  end.

Definition dquote : N := 34.
Definition newline : N := 10.
Definition backtick : N := 96.
Definition lbrace : N := 123.
Definition rbrace : N := 125.

(** A literal between double quotes, for writing JSON text. *)
Definition quoted (s : string) : jsstring := dquote :: str s ++ [dquote].

Fixpoint eqb (a b : jsstring) : bool :=
  match a, b with
  | [], [] => true
  | x :: a', y :: b' => (x =? y) && eqb a' b'
  | _, _ => false
  end.

(** [s.startsWith(p)], returning what follows the prefix. *)
Fixpoint strip_prefix (p s : jsstring) : option jsstring :=
  match p with
  | [] => Some s
  | x :: p' =>
      match s with
      | [] => None
      | y :: s' => if x =? y then strip_prefix p' s' else None
      end
  end.

(** Decimal rendering of a non-negative integer, as template
    interpolation does for [response.status] and [array.length]. *)
Definition of_N (n : N) : jsstring := str (NilZero.string_of_uint (N.to_uint n)).

(** ECMAScript WhiteSpace and LineTerminator code units, the set
    removed by [String.prototype.trim]. *)
Definition is_trim_space (c : N) : bool :=
  ((9 <=? c) && (c <=? 13)) || (c =? 32) || (c =? 160) || (c =? 5760)
  || ((8192 <=? c) && (c <=? 8202)) || (c =? 8232) || (c =? 8233)
  || (c =? 8239) || (c =? 8287) || (c =? 12288) || (c =? 65279).

Fixpoint trim_start (s : jsstring) : jsstring :=
  match s with
  | [] => []
  | c :: r => if is_trim_space c then trim_start r else s
  end.

Definition trim (s : jsstring) : jsstring :=
  rev (trim_start (rev (trim_start s))).

(** [s.replace(re, '')] for a global regular expression [re] that never
    matches the empty string.  [match_len s] is the length of the match
    of [re] anchored at the head of [s], if there is one.  The scan
    goes left to right; after a match it resumes behind the match. *)
Fixpoint remove_all_from (match_len : jsstring -> option nat)
         (skip : nat) (s : jsstring) : jsstring :=
  match s with
  | [] => []
  | c :: r =>
      match skip with
      | S k => remove_all_from match_len k r
      | O =>
          match match_len s with
          | Some (S k) => remove_all_from match_len k r
          | _ => c :: remove_all_from match_len O r
          end
      end
  end.

Definition remove_all (match_len : jsstring -> option nat) (s : jsstring) : jsstring :=
  remove_all_from match_len O s.

(** [sub] occurs in [s] at some position. *)
Fixpoint contains (sub s : jsstring) : bool :=
  match strip_prefix sub s with
  | Some _ => true
  | None => match s with [] => false | _ :: r => contains sub r end
  end.

End JsString.
Import JsString.

Arguments str : simpl never.
Arguments of_N : simpl never.

(** ** JSON values and [JSON.parse] *)

Module Json.

(** A number literal [(-1)^neg * mantissa * 10^exponent].  [JSON.parse]
    rounds it to the nearest IEEE-754 double; the only observations made
    of a number here are whether that double is zero and its decimal
    rendering. *)
Record number := Number { neg : bool; mantissa : N; exponent : Z }.

#[warnings="-register-all"]
Inductive JSON :=
| JNull
| JBool (b : bool)
| JNumber (n : number)
| JString (s : jsstring)
| JArray (items : list JSON)
| JObject (props : list (jsstring * JSON)).

(** Own-property lookup and definition on an object; defining an existing
    key overwrites its value and keeps its position. *)
Fixpoint obj_get {A} (k : jsstring) (m : list (jsstring * A)) : option A :=
  match m with
  | [] => None
  | (k', v) :: r => if JsString.eqb k k' then Some v else obj_get k r
  end.

Fixpoint obj_set {A} (k : jsstring) (v : A) (m : list (jsstring * A)) : list (jsstring * A) :=
  match m with
  | [] => [(k, v)]
  | (k', v') :: r => if JsString.eqb k k' then (k', v) :: r else (k', v') :: obj_set k v r
  end.

(** The double nearest to the literal is [0] or [-0]: the mantissa is
    zero, or the magnitude is at most half the least subnormal,
    [2^-1075]. *)
Definition rounds_to_zero (n : number) : bool :=
  (mantissa n =? 0)
  || ((exponent n <? 0)%Z
      && (mantissa n * 2 ^ 1075 <=? 10 ^ Z.to_N (- exponent n))).

(** *** The lexical grammar *)

Definition is_ws (c : N) : bool := (c =? 32) || (c =? 9) || (c =? 10) || (c =? 13).

Fixpoint skip_ws (s : jsstring) : jsstring :=
  match s with
  | [] => []
  | c :: r => if is_ws c then skip_ws r else s
  end.

Definition is_digit (c : N) : bool := (48 <=? c) && (c <=? 57).

Definition hex_digit (c : N) : option N :=
  if is_digit c then Some (c - 48)
  else if (97 <=? c) && (c <=? 102) then Some (c - 87)
  else if (65 <=? c) && (c <=? 70) then Some (c - 55)
  else None.

Definition hex4 (a b c d : N) : option N :=
  match hex_digit a, hex_digit b, hex_digit c, hex_digit d with
  | Some a, Some b, Some c, Some d => Some (((a * 16 + b) * 16 + c) * 16 + d)
  | _, _, _, _ => None
  end.

(** The single-character escapes: quote, backslash, slash, b f n r t. *)
Definition escape (c : N) : option N :=
  if (c =? 34) || (c =? 92) || (c =? 47) then Some c
  else if c =? 98 then Some 8
  else if c =? 102 then Some 12
  else if c =? 110 then Some 10
  else if c =? 114 then Some 13
  else if c =? 116 then Some 9
  else None.

(** The characters of a string literal after its opening quote. *)
Fixpoint string_body (s acc : jsstring) : option (jsstring * jsstring) :=
  match s with
  | [] => None
  | c :: r =>
      if c =? 34 then Some (rev acc, r)
      else if c =? 92 then
        match r with
        | [] => None
        | e :: r1 =>
            if e =? 117 then
              match r1 with
              | h1 :: h2 :: h3 :: h4 :: r2 =>
                  match hex4 h1 h2 h3 h4 with
                  | Some u => string_body r2 (u :: acc)
                  | None => None
                  end
              | _ => None
              end
            else
              match escape e with
              | Some x => string_body r1 (x :: acc)
              | None => None
              end
        end
      else if c <? 32 then None
      else string_body r (c :: acc)
  end.

(** A maximal run of digits: its value continuing [acc], how many there
    are, and the rest. *)
Fixpoint digits (s : jsstring) (acc : N) (count : nat) : N * nat * jsstring :=
  match s with
  | c :: r => if is_digit c then digits r (acc * 10 + (c - 48)) (S count) else (acc, count, s)
  | [] => (acc, count, s)
  end.

Definition int_part (s : jsstring) : option (N * jsstring) :=
  match s with
  | c :: r =>
      if c =? 48 then Some (0, r)
      else if is_digit c then
        let '(v, _, r') := digits s 0 O in Some (v, r')
      else None
  | [] => None
  end.

Definition frac_part (m : N) (s : jsstring) : option (N * Z * jsstring) :=
  match s with
  | c :: r =>
      if c =? 46 then
        match digits r m O with
        | (_, O, _) => None
        | (m', k, r') => Some (m', (- Z.of_nat k)%Z, r')
        end
      else Some (m, 0%Z, s)
  | [] => Some (m, 0%Z, s)
  end.

Definition exp_digits (negative : bool) (s : jsstring) : option (Z * jsstring) :=
  match digits s 0 O with
  | (_, O, _) => None
  | (e, _, r) => Some (if negative then (- Z.of_N e)%Z else Z.of_N e, r)
  end.

Definition exp_part (s : jsstring) : option (Z * jsstring) :=
  match s with
  | c :: r =>
      if (c =? 101) || (c =? 69) then
        match r with
        | sign :: r1 =>
            if sign =? 43 then exp_digits false r1
            else if sign =? 45 then exp_digits true r1
            else exp_digits false r
        | [] => None
        end
      else Some (0%Z, s)
  | [] => Some (0%Z, s)
  end.

Definition unsigned_number (negative : bool) (s : jsstring) : option (number * jsstring) :=
  match int_part s with
  | None => None
  | Some (i, r1) =>
      match frac_part i r1 with
      | None => None
      | Some (m, scale, r2) =>
          match exp_part r2 with
          | None => None
          | Some (e, r3) => Some (Number negative m (scale + e)%Z, r3)
          end
      end
  end.

Definition number_literal (s : jsstring) : option (number * jsstring) :=
  match s with
  | c :: r => if c =? 45 then unsigned_number true r else unsigned_number false s
  | [] => None
  end.

(** *** The recursive-descent parser *)

Inductive parse_result (A : Type) :=
| Parsed (a : A) (rest : jsstring)
| SyntaxError
| OutOfFuel.
Arguments Parsed {A}.
Arguments SyntaxError {A}.
Arguments OutOfFuel {A}.

Definition of_option {A} (o : option (A * jsstring)) : parse_result A :=
  match o with
  | Some (a, r) => Parsed a r
  | None => SyntaxError
  end.

Definition scalar (s : jsstring) : parse_result JSON :=
  match s with
  | [] => SyntaxError
  | c :: r =>
      if c =? 34 then
        of_option (option_map (fun p => (JString (fst p), snd p)) (string_body r []))
      else
        match strip_prefix (str "true") s with
        | Some r' => Parsed (JBool true) r'
        | None =>
            match strip_prefix (str "false") s with
            | Some r' => Parsed (JBool false) r'
            | None =>
                match strip_prefix (str "null") s with
                | Some r' => Parsed JNull r'
                | None =>
                    of_option (option_map (fun p => (JNumber (fst p), snd p)) (number_literal s))
                end
            end
        end
  end.

Fixpoint value (fuel : nat) (s : jsstring) : parse_result JSON :=
  match fuel with
  | O => OutOfFuel
  | S fuel' =>
      match skip_ws s with
      | [] => SyntaxError
      | c :: r =>
          if c =? 123 then
            match skip_ws r with
            | [] => SyntaxError
            | c' :: r' =>
                if c' =? 125 then Parsed (JObject []) r' else members fuel' (c' :: r') []
            end
          else if c =? 91 then
            match skip_ws r with
            | [] => SyntaxError
            | c' :: r' =>
                if c' =? 93 then Parsed (JArray []) r' else elements fuel' (c' :: r') []
            end
          else scalar (c :: r)
      end
  end

with elements (fuel : nat) (s : jsstring) (acc : list JSON) : parse_result JSON :=
  match fuel with
  | O => OutOfFuel
  | S fuel' =>
      match value fuel' s with
      | Parsed v r =>
          match skip_ws r with
          | [] => SyntaxError
          | c :: r' =>
              if c =? 44 then elements fuel' r' (v :: acc)
              else if c =? 93 then Parsed (JArray (rev (v :: acc))) r'
              else SyntaxError
          end
      | SyntaxError => SyntaxError
      | OutOfFuel => OutOfFuel
      end
  end

with members (fuel : nat) (s : jsstring) (acc : list (jsstring * JSON)) : parse_result JSON :=
  match fuel with
  | O => OutOfFuel
  | S fuel' =>
      match skip_ws s with
      | [] => SyntaxError
      | q :: r =>
          if q =? 34 then
            match string_body r [] with
            | None => SyntaxError
            | Some (k, r1) =>
                match skip_ws r1 with
                | [] => SyntaxError
                | colon :: r2 =>
                    if colon =? 58 then
                      match value fuel' r2 with
                      | Parsed v r3 =>
                          match skip_ws r3 with
                          | [] => SyntaxError
                          | c :: r4 =>
                              if c =? 44 then members fuel' r4 (obj_set k v acc)
                              else if c =? 125 then Parsed (JObject (obj_set k v acc)) r4
                              else SyntaxError
                          end
                      | SyntaxError => SyntaxError
                      | OutOfFuel => OutOfFuel
                      end
                    else SyntaxError
                end
            end
          else SyntaxError
      end
  end.

(** Every call consumes a character before it recurses, and at most two
    calls are nested per character. *)
Definition fuel_for (s : jsstring) : nat := 2 * List.length s + 2.

(** [JSON.parse(s)]: [None] stands for the thrown [SyntaxError]. *)
Definition JSON_parse (s : jsstring) : option JSON :=
  match value (fuel_for s) s with
  | Parsed v r => match skip_ws r with [] => Some v | _ => None end
  | _ => None
  end.

End Json.
Import Json.

Arguments scalar : simpl never.

(** ** The JavaScript runtime: completions, effects, values *)

(** A thrown value: an [Error] instance with its [message], or anything
    else. *)
Inductive Thrown :=
| ErrorObject (message : jsstring)
| NonError.

(** The errors the engine itself raises; their message texts are the
    engine's. *)
Inductive EngineError :=
| JsonSyntax (text : jsstring)
| DestructureNull
| ReadOfNullish (prop : jsstring)
| NotAFunction (prop : jsstring)
| NotPrimitive.

Inductive Completion (A : Type) :=
| Normal (a : A)
| Throws (e : Thrown).
Arguments Normal {A}.
Arguments Throws {A}.

(** A computation: the effects it performed, in order, and how it
    completed. *)
Definition M (E A : Type) : Type := list E * Completion A.

Definition ret {E A} (a : A) : M E A := ([], Normal a).
Definition throw {E A} (e : Thrown) : M E A := ([], Throws e).
Definition emit {E} (e : E) : M E unit := ([e], Normal tt).

Definition bind {E A B} (c : M E A) (k : A -> M E B) : M E B :=
  match c with
  | (done, Normal a) => let (more, r) := k a in (done ++ more, r)
  | (done, Throws e) => (done, Throws e)
  end.

(** [try { c } catch (e) { handler e }] *)
Definition try_catch {E A} (c : M E A) (handler : Thrown -> M E A) : M E A :=
  match c with
  | (done, Throws e) => let (more, r) := handler e in (done ++ more, r)
  | _ => c
  end.

Declare Scope js_scope.
Delimit Scope js_scope with js.
Notation "x <- c ;; k" := (bind c (fun x => k))
  (at level 61, c at next level, right associativity) : js_scope.
Notation "c ;; k" := (bind c (fun _ => k))
  (at level 61, right associativity) : js_scope.
Local Open Scope js_scope.

(** A value as the code sees it: [None] is [undefined]. *)
Definition jsvalue := option JSON.

Definition truthy (v : jsvalue) : bool :=
  match v with
  | None => false
  | Some JNull => false
  | Some (JBool b) => b
  | Some (JNumber n) => negb (rounds_to_zero n)
  | Some (JString s) => match s with [] => false | _ => true end
  | Some (JArray _) => true
  | Some (JObject _) => true
  end.


Definition isArray (v : jsvalue) : bool :=
  match v with
  | Some (JArray _) => true
  | _ => false
  end.

Definition array_length (v : jsvalue) : N :=
  match v with
  | Some (JArray items) => N.of_nat (List.length items)
  | _ => 0
  end.

(** All the values, when none is missing. *)
Fixpoint all_some {A} (l : list (option A)) : option (list A) :=
  match l with
  | [] => Some []
  | Some a :: r => option_map (cons a) (all_some r)
  | None :: _ => None
  end.

Fixpoint join (sep : jsstring) (parts : list jsstring) : jsstring :=
  match parts with
  | [] => []
  | [p] => p
  | p :: rest => p ++ sep ++ join sep rest
  end.

Section Runtime.

(** The message text of each engine-raised error. *)
Variable engine_message : EngineError -> jsstring.

(** [Number::toString] on the double a literal denotes. *)
Variable number_to_string : number -> jsstring.

Definition engine_error (e : EngineError) : Thrown := ErrorObject (engine_message e).

(** [ToString]; [None] stands for the [TypeError] of an object that has
    no primitive value.  An object converts through
    [Object.prototype.toString] unless it has an own [toString] property:
    after [JSON.parse] such a property is never callable, and
    [Object.prototype.valueOf] (or an own [valueOf], not callable either)
    yields no primitive.  An array converts through [join], which
    converts its elements, [null] to the empty string. *)
Fixpoint to_string (v : JSON) : option jsstring :=
  match v with
  | JNull => Some (str "null")
  | JBool true => Some (str "true")
  | JBool false => Some (str "false")
  | JNumber n => Some (number_to_string n)
  | JString s => Some s
  | JArray items =>
      option_map (join (str ","))
        (all_some
           (map (fun x => match x with JNull => Some [] | _ => to_string x end) items))
  | JObject props =>
      match obj_get (str "toString") props with
      | None => Some (str "[object Object]")
      | Some _ => None
      end
  end.

(** [ToString] of a value that may be [undefined]. *)
Definition interpolate (v : jsvalue) : option jsstring :=
  match v with
  | None => Some (str "undefined")
  | Some v => to_string v
  end.

(** A string built by conversions, or the [TypeError] of the conversion
    that fails. *)
Definition converted {E} (text : option jsstring) : M E jsstring :=
  match text with
  | Some s => ret s
  | None => throw (engine_error NotPrimitive)
  end.

(** An environment variable in a template: its text, or [undefined]. *)
Definition env_text (v : option jsstring) : jsstring :=
  match v with
  | Some s => s
  | None => str "undefined"
  end.

(** [base.name] for a name that is neither an index nor defined on a
    built-in prototype ([domain], [ideas], [error], [choices], ...). *)
Definition member {E} (name : string) (base : jsvalue) : M E jsvalue :=
  match base with
  | None => throw (engine_error (ReadOfNullish (str name)))
  | Some JNull => throw (engine_error (ReadOfNullish (str name)))
  | Some (JObject props) => ret (obj_get (str name) props)
  | Some _ => ret None
  end.

(** [base[0]]. *)
Definition first {E} (base : jsvalue) : M E jsvalue :=
  match base with
  | None => throw (engine_error (ReadOfNullish (str "0")))
  | Some JNull => throw (engine_error (ReadOfNullish (str "0")))
  | Some (JArray items) => ret (hd_error items)
  | Some (JString s) => ret (match s with c :: _ => Some (JString [c]) | [] => None end)
  | Some (JObject props) => ret (obj_get (str "0") props)
  | Some _ => ret None
  end.

(** [await body.json()]: the text parsed, or a [SyntaxError]. *)
Definition json_of {E} (text : jsstring) : M E JSON :=
  match JSON_parse text with
  | Some v => ret v
  | None => throw (engine_error (JsonSyntax text))
  end.

(** The receiver of a string method call such as
    [generatedContent.substring]. *)
Definition as_string {E} (method_name : string) (v : jsvalue) : M E jsstring :=
  match v with
  | Some (JString s) => ret s
  | None => throw (engine_error (ReadOfNullish (str method_name)))
  | Some JNull => throw (engine_error (ReadOfNullish (str method_name)))
  | Some _ => throw (engine_error (NotAFunction (str method_name)))
  end.

(** ** The gateway: [supabase/functions/generate-idea/index.ts] *)

(** [Deno.env.get('OPENAI_API_KEY')]. *)
Variable openAIApiKey : option jsstring.

Definition line (s : jsstring) : jsstring := s ++ [newline].

(** The fixed system instruction (source lines 11 to 56). *)
Definition SYSTEM_PROMPT : jsstring :=
  line (str "You are InnovAIte Assistant, an expert startup/hackathon idea generator and AI Co-Founder. ")
  ++ line []
  ++ line (str "For each user request, return ONLY valid JSON (no explanatory text before or after). Your JSON must have this exact structure:")
  ++ line []
  ++ line (str "{")
  ++ line (str "  " ++ quoted "ideas" ++ str ": [")
  ++ line (str "    {")
  ++ line (str "      " ++ quoted "title" ++ str ": " ++ quoted "string - compelling project title" ++ str ",")
  ++ line (str "      " ++ quoted "tagline" ++ str ": " ++ quoted "string - short catchy tagline under 15 words" ++ str ",")
  ++ line (str "      " ++ quoted "problem" ++ str ": " ++ quoted "string - clear problem statement (2-3 sentences)" ++ str ",")
  ++ line (str "      " ++ quoted "solution" ++ str ": " ++ quoted "string - proposed solution (2-3 sentences)" ++ str ",")
  ++ line (str "      " ++ quoted "features" ++ str ": [" ++ quoted "array of 5-7 key feature descriptions" ++ str "],")
  ++ line (str "      " ++ quoted "tech_stack" ++ str ": [" ++ quoted "array of 6-10 technologies to use" ++ str "],")
  ++ line (str "      " ++ quoted "architecture" ++ str ": " ++ quoted "string - ASCII diagram showing system architecture with components and data flow" ++ str ",")
  ++ line (str "      " ++ quoted "roadmap" ++ str ": [")
  ++ line (str "        {")
  ++ line (str "          " ++ quoted "phase" ++ str ": " ++ quoted "Day 1" ++ str " or " ++ quoted "Week 1" ++ str " etc,")
  ++ line (str "          " ++ quoted "tasks" ++ str ": [" ++ quoted "array of 3-5 specific tasks for this phase" ++ str "]")
  ++ line (str "        }")
  ++ line (str "      ],")
  ++ line (str "      " ++ quoted "feasibility" ++ str ": {")
  ++ line (str "        " ++ quoted "technical" ++ str ": number 1-10,")
  ++ line (str "        " ++ quoted "time_days" ++ str ": number of days needed,")
  ++ line (str "        " ++ quoted "market_fit" ++ str ": number 1-10")
  ++ line (str "      },")
  ++ line (str "      " ++ quoted "persona" ++ str ": " ++ quoted "string - detailed target user persona (2-3 sentences)" ++ str ",")
  ++ line (str "      " ++ quoted "monetization" ++ str ": " ++ quoted "string - monetization strategy (2-3 sentences)" ++ str ",")
  ++ line (str "      " ++ quoted "task_breakdown" ++ str ": [")
  ++ line (str "        {")
  ++ line (str "          " ++ quoted "area" ++ str ": " ++ quoted "frontend" ++ str " | " ++ quoted "backend" ++ str " | " ++ quoted "AI/ML" ++ str " | " ++ quoted "DevOps" ++ str " | " ++ quoted "UI/UX" ++ str ",")
  ++ line (str "          " ++ quoted "tasks" ++ str ": [" ++ quoted "array of 4-6 specific tasks" ++ str "],")
  ++ line (str "          " ++ quoted "estimated_hours" ++ str ": number")
  ++ line (str "        }")
  ++ line (str "      ]")
  ++ line (str "    }")
  ++ line (str "  ]")
  ++ line (str "}")
  ++ line []
  ++ line (str "CRITICAL RULES:")
  ++ line (str "1. Return ONLY the JSON structure above - no other text")
  ++ line (str "2. Ensure all ideas are unique and distinct from each other")
  ++ line (str "3. Make ideas practical and buildable with the given constraints")
  ++ line (str "4. Architecture should be a simple ASCII diagram (use |, -, +, [ ], etc.)")
  ++ line (str "5. Total estimated hours across all task_breakdown areas should match time_days * 8")
  ++ line (str "6. Be specific and actionable in all descriptions")
  ++ str "7. If you cannot produce valid JSON, return {" ++ quoted "error" ++ str ": " ++ quoted "could not produce json" ++ str "}".

Definition Headers := list (jsstring * jsstring).

Definition corsHeaders : Headers :=
  [ (str "Access-Control-Allow-Origin", str "*");
    (str "Access-Control-Allow-Headers",
     str "authorization, x-client-info, apikey, content-type") ].

(** The incoming request, as far as the handler reads it. *)
Record Request := { method : jsstring; payload : jsstring }.

(** A response body: [null], or the text [JSON.stringify(v)]. *)
Inductive Body :=
| NoBody
| Stringified (v : JSON).

Record Response := { status : N; headers : Headers; body : Body }.

(** What [fetch] resolves to: a status and the body text, fully read. *)
Record Upstream := { upstream_status : N; upstream_text : jsstring }.

Definition ok (r : Upstream) : bool :=
  (200 <=? upstream_status r) && (upstream_status r <=? 299).

Inductive FetchOutcome :=
| Responds (r : Upstream)
| Rejects (e : Thrown).

(** The arguments of a [fetch] call; [fetch_json] is the value whose
    [JSON.stringify] is the request body. *)
Record FetchCall :=
  { fetch_url : jsstring;
    fetch_method : jsstring;
    fetch_headers : Headers;
    fetch_json : JSON }.

Inductive LogItem :=
| Text (s : jsstring)
| Value (v : jsvalue)
| Count (n : N)
| Fields (props : list (jsstring * jsvalue))
| Caught (e : Thrown).

Inductive Effect :=
| console_log (items : list LogItem)
| console_error (items : list LogItem)
| fetch_sent (call : FetchCall).

Definition G := M Effect.

Definition fetch (upstream : FetchCall -> FetchOutcome) (call : FetchCall) : G Upstream :=
  emit (fetch_sent call) ;;
  match upstream call with
  | Responds r => ret r
  | Rejects e => throw e
  end.

(** [new Response(JSON.stringify(v), { status, headers: { ...corsHeaders,
    'Content-Type': 'application/json' } })]. *)
Definition json_response (st : N) (v : JSON) : Response :=
  {| status := st;
     headers := obj_set (str "Content-Type") (str "application/json") corsHeaders;
     body := Stringified v |}.

Definition error_body (message : jsstring) : JSON :=
  JObject [(str "error", JString message)].

(** The destructured request fields. *)
Record Params :=
  { domain : jsvalue;
    audience : jsvalue;
    difficulty : jsvalue;
    time_available_days : jsvalue;
    skills : jsvalue;
    mode : jsvalue;
    constraints : jsvalue;
    multi_idea_count : jsvalue }.

Definition own (name : string) (v : JSON) : jsvalue :=
  match v with
  | JObject props => obj_get (str name) props
  | _ => None
  end.

(** The properties the destructuring pattern binds, with the default
    of [multi_idea_count]. *)
Definition fields (v : JSON) : Params :=
  {| domain := own "domain" v;
     audience := own "audience" v;
     difficulty := own "difficulty" v;
     time_available_days := own "time_available_days" v;
     skills := own "skills" v;
     mode := own "mode" v;
     constraints := own "constraints" v;
     multi_idea_count :=
       match own "multi_idea_count" v with
       | None => Some (JNumber (Number false 3 0))
       | given => given
       end |}.

(** Destructuring [null] throws; any other value is coerced to an
    object, and a primitive or an array has none of the properties. *)
Definition destructure (v : JSON) : G Params :=
  match v with
  | JNull => throw (engine_error DestructureNull)
  | _ => ret (fields v)
  end.

Definition missing_required (p : Params) : bool :=
  negb (truthy (domain p)) || negb (truthy (audience p))
  || negb (truthy (difficulty p)) || negb (truthy (time_available_days p))
  || negb (truthy (mode p)).

Definition missing_fields_message : jsstring :=
  str "Missing required fields: domain, audience, difficulty, time_available_days, mode".

Definition or_else (v : jsvalue) (fallback : string) : jsvalue :=
  if truthy v then v else Some (JString (str fallback)).

(** The text of the template once its eight values are converted. *)
Definition prompt_text (count domain audience difficulty days mode skills constraints
                        : jsstring) : jsstring :=
  line (str "Generate " ++ count
        ++ str " unique, buildable project ideas with these parameters:")
  ++ line []
  ++ line (str "Domain: " ++ domain)
  ++ line (str "Target Audience: " ++ audience)
  ++ line (str "Difficulty Level: " ++ difficulty)
  ++ line (str "Time Available: " ++ days ++ str " days")
  ++ line (str "Project Mode: " ++ mode)
  ++ line (str "Skills: " ++ skills)
  ++ line (str "Constraints: " ++ constraints)
  ++ line []
  ++ line (str "Requirements:")
  ++ line (str "- Each idea must be completely different from the others")
  ++ line (str "- Ideas should be feasible within the time constraint")
  ++ line (str "- Match the difficulty level appropriately")
  ++ line (str "- Consider the target audience's needs")
  ++ line (str "- Respect all constraints mentioned")
  ++ str "- Provide complete details for each idea following the JSON structure".

(** The template literal of [userPrompt]: its values are converted from
    left to right, and it has no text when one conversion throws. *)
Definition userPrompt (p : Params) : option jsstring :=
  match interpolate (multi_idea_count p), interpolate (domain p),
        interpolate (audience p), interpolate (difficulty p),
        interpolate (time_available_days p), interpolate (mode p),
        interpolate (or_else (skills p) "Not specified"),
        interpolate (or_else (constraints p) "None specified") with
  | Some count, Some domain', Some audience', Some difficulty', Some days, Some mode',
    Some skills', Some constraints' =>
      Some (prompt_text count domain' audience' difficulty' days mode' skills' constraints')
  | _, _, _, _, _, _, _, _ => None
  end.

Definition chat_message (role : string) (content : jsstring) : JSON :=
  JObject [(str "role", JString (str role)); (str "content", JString content)].

Definition completion_call (prompt : jsstring) : FetchCall :=
  {| fetch_url := str "https://api.openai.com/v1/chat/completions";
     fetch_method := str "POST";
     fetch_headers :=
       [ (str "Authorization",
          str "Bearer " ++ match openAIApiKey with Some k => k | None => str "undefined" end);
         (str "Content-Type", str "application/json") ];
     fetch_json :=
       JObject
         [ (str "model", JString (str "gpt-5-mini-2025-08-07"));
           (str "messages",
            JArray [chat_message "system" SYSTEM_PROMPT;
                    chat_message "user" prompt]);
           (str "max_completion_tokens", JNumber (Number false 4000 0)) ] |}.

(** The regular expression [```json\n?], anchored: the length of its
    match at the head of [s]. *)
Definition json_fence (s : jsstring) : option nat :=
  match strip_prefix (str "```json") s with
  | Some (c :: _) => if c =? newline then Some 8%nat else Some 7%nat
  | Some [] => Some 7%nat
  | None => None
  end.

(** The regular expression [```\n?], anchored. *)
Definition fence (s : jsstring) : option nat :=
  match strip_prefix (str "```") s with
  | Some (c :: _) => if c =? newline then Some 4%nat else Some 3%nat
  | Some [] => Some 3%nat
  | None => None
  end.

Definition cleanContent (generatedContent : jsstring) : jsstring :=
  trim (remove_all fence (remove_all json_fence generatedContent)).

(** The greedy [[\s\S]*\}] anchored at the head of [s]: everything
    through the last closing brace. *)
Fixpoint through_last_rbrace (s : jsstring) : option jsstring :=
  match s with
  | [] => None
  | c :: r =>
      match through_last_rbrace r with
      | Some m => Some (c :: m)
      | None => if c =? rbrace then Some [c] else None
      end
  end.

(** [generatedContent.match(/\{[\s\S]*\}/)]: element 0 of the leftmost
    match, if any. *)
Fixpoint jsonMatch (s : jsstring) : option jsstring :=
  match s with
  | [] => None
  | c :: r =>
      if c =? lbrace then
        match through_last_rbrace r with
        | Some m => Some (c :: m)
        | None => jsonMatch r
        end
      else jsonMatch r
  end.

(** The body of the inner [try]: clean, parse, check the structure. *)
Definition direct (generatedContent : jsstring) : G JSON :=
  parsedData <- json_of (cleanContent generatedContent) ;;
  ideas <- member "ideas" (Some parsedData) ;;
  if negb (truthy ideas) || negb (isArray ideas) then
    throw (ErrorObject (str "Invalid response structure: missing ideas array"))
  else
    emit (console_log
            [Text (str "Successfully generated " ++ of_N (array_length ideas)
                   ++ str " ideas")]) ;;
    ret parsedData.

Definition no_json_message : jsstring :=
  str "AI did not return valid JSON. Please try again.".

Definition parse_failed_message : jsstring :=
  str "Failed to parse AI response. Please try again.".

(** The inner [try]/[catch]: [inl] is the value left in [parsedData],
    [inr] a response returned from inside the [catch]. *)
Definition recover (generatedContent : jsstring) : G (JSON + Response) :=
  try_catch
    (parsedData <- direct generatedContent ;; ret (inl parsedData))
    (fun parseError =>
       emit (console_error [Text (str "JSON parsing error:"); Caught parseError]) ;;
       emit (console_error [Text (str "Content that failed to parse:");
                            Value (Some (JString generatedContent))]) ;;
       match jsonMatch generatedContent with
       | Some block =>
           match JSON_parse block with
           | Some parsedData => ret (inl parsedData)
           | None => ret (inr (json_response 500 (error_body parse_failed_message)))
           end
       | None => ret (inr (json_response 500 (error_body no_json_message)))
       end).

Definition coerce (generatedContent : jsstring) : G Response :=
  r <- recover generatedContent ;;
  match r with
  | inl parsedData => ret (json_response 200 parsedData)
  | inr response => ret response
  end.

(** Reading the reply out of a 2xx answer (source lines 142 to 145). *)
Definition reply_text (response : Upstream) : G jsstring :=
  data <- json_of (upstream_text response) ;;
  choices <- member "choices" (Some data) ;;
  choice <- first choices ;;
  message <- member "message" choice ;;
  content <- member "content" message ;;
  generatedContent <- as_string "substring" content ;;
  emit (console_log [Text (str "Raw OpenAI response:");
                     Value (Some (JString (firstn 200 generatedContent)))]) ;;
  ret generatedContent.

Definition api_error_response (st : N) : Response :=
  json_response 500 (error_body (str "OpenAI API error: " ++ of_N st)).

(** From the [fetch] to the model's reply (source lines 114 to 145):
    [inl] is a response returned early, [inr] is [generatedContent]. *)
Definition relay (upstream : FetchCall -> FetchOutcome) (prompt : jsstring)
  : G (Response + jsstring) :=
  response <- fetch upstream (completion_call prompt) ;;
  if negb (ok response) then
    emit (console_error [Text (str "OpenAI API error:");
                         Count (upstream_status response);
                         Value (Some (JString (upstream_text response)))]) ;;
    ret (inl (api_error_response (upstream_status response)))
  else
    generatedContent <- reply_text response ;;
    ret (inr generatedContent).

Definition params_log (p : Params) : Effect :=
  console_log
    [Text (str "Generating ideas with params:");
     Fields [(str "domain", domain p); (str "audience", audience p);
             (str "difficulty", difficulty p);
             (str "time_available_days", time_available_days p);
             (str "mode", mode p)]].

(** The outer [try] up to the model's reply (source lines 65 to 145). *)
Definition obtain (upstream : FetchCall -> FetchOutcome) (req : Request)
  : G (Response + jsstring) :=
  received <- json_of (payload req) ;;
  p <- destructure received ;;
  emit (params_log p) ;;
  if missing_required p then
    ret (inl (json_response 400 (error_body missing_fields_message)))
  else
    prompt <- converted (userPrompt p) ;;
    relay upstream prompt.

(** The body of the outer [try]. *)
Definition handle (upstream : FetchCall -> FetchOutcome) (req : Request) : G Response :=
  r <- obtain upstream req ;;
  match r with
  | inl response => ret response
  | inr generatedContent => coerce generatedContent
  end.

Definition preflight : Response :=
  {| status := 200; headers := corsHeaders; body := NoBody |}.

Definition unknown_error_message : jsstring := str "Unknown error occurred".

(** The handler passed to [serve]: the effects it performs and the
    response it returns. *)
Definition serve (upstream : FetchCall -> FetchOutcome) (req : Request)
  : list Effect * Response :=
  if JsString.eqb (method req) (str "OPTIONS") then ([], preflight)
  else
    match handle upstream req with
    | (done, Normal response) => (done, response)
    | (done, Throws error) =>
        (done ++ [console_error [Text (str "Error in generate-idea function:");
                                 Caught error]],
         json_response 500
           (error_body match error with
                       | ErrorObject message => message
                       | NonError => unknown_error_message
                       end))
    end.

(** The model's reply, as the handler of a non-preflight request
    receives it in [generatedContent]. *)
Definition model_reply (upstream : FetchCall -> FetchOutcome) (req : Request)
           (text : jsstring) : Prop :=
  JsString.eqb (method req) (str "OPTIONS") = false
  /\ snd (obtain upstream req) = Normal (inr text).

(** ** The controller: the [Index] page *)

(** [import.meta.env.VITE_SUPABASE_URL] and
    [import.meta.env.VITE_SUPABASE_PUBLISHABLE_KEY]. *)
Variable VITE_SUPABASE_URL : option jsstring.
Variable VITE_SUPABASE_PUBLISHABLE_KEY : option jsstring.

(** The two [useState] cells. *)
Record PageState := { ideas : list JSON; isLoading : bool }.

Definition initial : PageState := {| ideas := []; isLoading := false |}.

Inductive UiEffect :=
| setIsLoading (b : bool)
| setIdeas (l : list JSON)
| ui_fetch (call : FetchCall)
| ui_console_error (items : list LogItem)
| toast_success (s : jsstring)
| toast_error (s : jsstring).

Definition U := M UiEffect.

(** [try { c } finally { f }]. *)
Definition try_finally {A} (c : U A) (f : U unit) : U A :=
  match c, f with
  | (done, r), (more, Normal _) => (done ++ more, r)
  | (done, _), (more, Throws e) => (done ++ more, Throws e)
  end.

Definition generate_call (formData : list (jsstring * JSON)) : FetchCall :=
  {| fetch_url := env_text VITE_SUPABASE_URL ++ str "/functions/v1/generate-idea";
     fetch_method := str "POST";
     fetch_headers :=
       [ (str "Content-Type", str "application/json");
         (str "Authorization",
          str "Bearer " ++ env_text VITE_SUPABASE_PUBLISHABLE_KEY) ];
     fetch_json :=
       JObject (obj_set (str "multi_idea_count") (JNumber (Number false 3 0)) formData) |}.

Definition items_of (v : jsvalue) : list JSON :=
  match v with
  | Some (JArray items) => items
  | _ => []
  end.

Definition generic_failure : jsstring := str "Failed to generate ideas".
Definition invalid_format : jsstring := str "Invalid response format".
Definition retry_failure : jsstring := str "Failed to generate ideas. Please try again.".
Definition success_text : jsstring := str "3 amazing ideas generated!".

(** The body of the [try] in [handleGenerate]. *)
Definition attempt (gateway : FetchCall -> FetchOutcome)
           (formData : list (jsstring * JSON)) : U unit :=
  response <- (emit (ui_fetch (generate_call formData)) ;;
               match gateway (generate_call formData) with
               | Responds r => ret r
               | Rejects e => throw e
               end) ;;
  (if negb (ok response) then
     errorData <- json_of (upstream_text response) ;;
     supplied <- member "error" (Some errorData) ;;
     message <- converted (interpolate (if truthy supplied then supplied
                                        else Some (JString generic_failure))) ;;
     throw (ErrorObject message)
   else ret tt) ;;
  data <- json_of (upstream_text response) ;;
  found <- member "ideas" (Some data) ;;
  if truthy found && isArray found then
    emit (setIdeas (items_of found)) ;;
    emit (toast_success success_text)
  else throw (ErrorObject invalid_format).

Definition handleGenerate (gateway : FetchCall -> FetchOutcome)
           (formData : list (jsstring * JSON)) : U unit :=
  emit (setIsLoading true) ;;
  emit (setIdeas []) ;;
  try_finally
    (try_catch (attempt gateway formData)
       (fun error =>
          emit (ui_console_error [Text (str "Error generating ideas:"); Caught error]) ;;
          emit (toast_error match error with
                            | ErrorObject message => message
                            | NonError => retry_failure
                            end)))
    (emit (setIsLoading false)).

(** The effect of one state setter, and of a run of effects, on the
    page state. *)
Definition apply (st : PageState) (e : UiEffect) : PageState :=
  match e with
  | setIsLoading b => {| ideas := ideas st; isLoading := b |}
  | setIdeas l => {| ideas := l; isLoading := isLoading st |}
  | _ => st
  end.

Definition run (st : PageState) (effects : list UiEffect) : PageState :=
  fold_left apply effects st.

Definition toasts (effects : list UiEffect) : list UiEffect :=
  filter (fun e => match e with toast_success _ | toast_error _ => true | _ => false end)
         effects.

(** What [Index] renders below the hero: the form with its loading
    flag, the results section with one card per idea (key and index,
    idea), and the empty state. *)
Record View :=
  { form_isLoading : bool;
    results_section : option (list (nat * JSON));
    empty_state : bool }.

Definition Index (st : PageState) : View :=
  {| form_isLoading := isLoading st;
     results_section :=
       if (0 <? List.length (ideas st))%nat
       then Some (combine (seq 0 (List.length (ideas st))) (ideas st))
       else None;
     empty_state := negb (isLoading st) && (List.length (ideas st) =? 0)%nat |}.

(** ** Vocabulary of the properties *)

(** *** The gateway's responses and logs *)

Definition parse_error_log (text : jsstring) (e : Thrown) : list Effect :=
  [ console_error [Text (str "JSON parsing error:"); Caught e];
    console_error [Text (str "Content that failed to parse:");
                   Value (Some (JString text))] ].

(** What the fallback of the [catch] block yields. *)
Definition fallback (text : jsstring) : JSON + Response :=
  match jsonMatch text with
  | Some block =>
      match JSON_parse block with
      | Some parsedData => inl parsedData
      | None => inr (json_response 500 (error_body parse_failed_message))
      end
  | None => inr (json_response 500 (error_body no_json_message))
  end.

Definition respond (r : JSON + Response) : Response :=
  match r with
  | inl parsedData => json_response 200 parsedData
  | inr response => response
  end.

Definition missing_fields_response : Response :=
  json_response 400 (error_body missing_fields_message).

(** The response of the outer [catch]. *)
Definition caught_response (error : Thrown) : Response :=
  json_response 500
    (error_body match error with
                | ErrorObject message => message
                | NonError => unknown_error_message
                end).

Definition caught_log (error : Thrown) : Effect :=
  console_error [Text (str "Error in generate-idea function:"); Caught error].

(** Every effect of the computation satisfies [P]. *)
Definition logs {E A} (P : E -> Prop) (c : M E A) : Prop := Forall P (fst c).

Definition quiet (e : Effect) : Prop :=
  match e with
  | fetch_sent _ => False
  | _ => True
  end.

(** The responses to a request that is not a preflight, each with the
    path that produces it. *)
Inductive Outcome (upstream : FetchCall -> FetchOutcome) (req : Request)
  : Response -> Prop :=
| out_missing received :
    JSON_parse (payload req) = Some received -> received <> JNull ->
    missing_required (fields received) = true ->
    Outcome upstream req missing_fields_response
| out_api_error received prompt u :
    JSON_parse (payload req) = Some received -> received <> JNull ->
    missing_required (fields received) = false ->
    userPrompt (fields received) = Some prompt ->
    upstream (completion_call prompt) = Responds u -> ok u = false ->
    Outcome upstream req (api_error_response (upstream_status u))
| out_direct text l v :
    model_reply upstream req text -> direct text = (l, Normal v) ->
    Outcome upstream req (json_response 200 v)
| out_recovered text l e block v :
    model_reply upstream req text -> direct text = (l, Throws e) ->
    jsonMatch text = Some block -> JSON_parse block = Some v ->
    Outcome upstream req (json_response 200 v)
| out_parse_failed text l e block :
    model_reply upstream req text -> direct text = (l, Throws e) ->
    jsonMatch text = Some block -> JSON_parse block = None ->
    Outcome upstream req (json_response 500 (error_body parse_failed_message))
| out_no_json text l e :
    model_reply upstream req text -> direct text = (l, Throws e) ->
    jsonMatch text = None ->
    Outcome upstream req (json_response 500 (error_body no_json_message))
| out_caught log e :
    obtain upstream req = (log, Throws e) ->
    Outcome upstream req (caught_response e).


Definition has_ideas_array (v : JSON) : Prop :=
  exists props items, v = JObject props /\ obj_get (str "ideas") props = Some (JArray items).



(** *** The stage after a passed validation *)

(** The template literal, then the relay: nothing is sent when a
    conversion throws. *)
Definition prompted (upstream : FetchCall -> FetchOutcome) (p : Params)
  : G (Response + jsstring) :=
  match userPrompt p with
  | Some prompt => relay upstream prompt
  | None => ([], Throws (engine_error NotPrimitive))
  end.

(** *** Texts and what a parser has read of them *)

(** [r] is what remains of [s] after a non-empty prefix was read. *)
Definition after (s r : jsstring) : Prop := exists used, used <> [] /\ s = used ++ r.

(** [r] is what remains of [s] after a possibly empty prefix. *)
Definition upto (s r : jsstring) : Prop := exists used, s = used ++ r.

Definition is_object (v : JSON) : Prop := exists props, v = JObject props.

(** [s] holds an opening brace and, behind it, a closing brace followed
    by exactly [r]. *)
Definition braces_before (s r : jsstring) : Prop :=
  exists pre mid, s = pre ++ lbrace :: mid ++ rbrace :: r.

(** [s] holds an opening brace with a closing brace somewhere behind. *)
Definition has_braces (s : jsstring) : Prop :=
  exists pre mid post, s = pre ++ lbrace :: mid ++ rbrace :: post.

(** [a] is [b] with some code units left out. *)
Inductive subseq : jsstring -> jsstring -> Prop :=
| subseq_nil : subseq [] []
| subseq_skip c a b : subseq a b -> subseq a (c :: b)
| subseq_keep c a b : subseq a b -> subseq (c :: a) (c :: b).

(** *** The controller's failures *)

Definition failure_text (error : Thrown) : jsstring :=
  match error with
  | ErrorObject message => message
  | NonError => retry_failure
  end.

(** What the [catch] of [handleGenerate] does with a thrown value. *)
Definition catch_effects (error : Thrown) : list UiEffect :=
  [ ui_console_error [Text (str "Error generating ideas:"); Caught error];
    toast_error (failure_text error) ].

(** What is thrown for a response that is not ok: the [Error] with the
    supplied or the generic message, or the [TypeError] of a supplied
    value that has no string. *)
Definition supplied_or_generic (errorData : JSON) : Thrown :=
  match interpolate (if truthy (own "error" errorData) then own "error" errorData
                     else Some (JString generic_failure)) with
  | Some message => ErrorObject message
  | None => engine_error NotPrimitive
  end.

(** The ways a generation fails. *)
Inductive Failure (gateway : FetchCall -> FetchOutcome) (formData : list (jsstring * JSON))
  : Prop :=
| network_error e :
    gateway (generate_call formData) = Rejects e -> Failure gateway formData
| status_not_ok r :
    gateway (generate_call formData) = Responds r -> ok r = false ->
    Failure gateway formData
| malformed_body r :
    gateway (generate_call formData) = Responds r ->
    JSON_parse (upstream_text r) = None -> Failure gateway formData
| ideas_not_an_array r d :
    gateway (generate_call formData) = Responds r ->
    JSON_parse (upstream_text r) = Some d -> isArray (own "ideas" d) = false ->
    Failure gateway formData.

(** *** Sample inputs *)

(** The request of the end-to-end scenario. *)
Definition sample_request : Request :=
  {| method := str "POST";
     payload :=
       str "{" ++ quoted "domain" ++ str ":" ++ quoted "fitness" ++ str ","
       ++ quoted "audience" ++ str ":" ++ quoted "students" ++ str ","
       ++ quoted "difficulty" ++ str ":" ++ quoted "beginner" ++ str ","
       ++ quoted "time_available_days" ++ str ":3,"
       ++ quoted "mode" ++ str ":" ++ quoted "hackathon" ++ str "}" |}.

(** A string as a JSON string literal: quotes, backslashes and newlines
    escaped. *)
Fixpoint escaped (s : jsstring) : jsstring :=
  match s with
  | [] => []
  | c :: r =>
      if (c =? 34) || (c =? 92) then 92 :: c :: escaped r
      else if c =? 10 then 92 :: 110 :: escaped r
      else c :: escaped r
  end.

(** The body of a chat completion whose first choice carries [content]. *)
Definition completion_text (content : jsstring) : jsstring :=
  str "{" ++ quoted "choices" ++ str ":[{" ++ quoted "message" ++ str ":{"
  ++ quoted "content" ++ str ":" ++ [dquote] ++ escaped content ++ [dquote]
  ++ str "}}]}".

(** A completion endpoint that answers every call with [status] and
    that body. *)
Definition answering (status : N) (content : jsstring) : FetchCall -> FetchOutcome :=
  fun _ => Responds {| upstream_status := status; upstream_text := completion_text content |}.

(** The replies of the testable properties. *)
Definition fenced_reply : jsstring :=
  str "```json" ++ [newline] ++ str "{" ++ quoted "ideas" ++ str ":[]}" ++ [newline]
  ++ str "```".


Definition empty_ideas : JSON := JObject [(str "ideas", JArray [])].

Definition fence_reply : jsstring :=
  str "{" ++ quoted "ideas" ++ str ":[{" ++ quoted "architecture" ++ str ":"
  ++ quoted "```" ++ str "}]}".

Definition architecture_of (text : string) : JSON :=
  JObject [(str "ideas", JArray [JObject [(str "architecture", JString (str text))]])].


Definition empty_request : Request := {| method := str "POST"; payload := str "{}" |}.



Definition plain_reply : jsstring := str "I cannot help with that.".

Definition broken_reply : jsstring := str "Here you go: {ideas: none} enjoy".

Definition rate_limited : FetchCall -> FetchOutcome :=
  fun _ => Responds {| upstream_status := 429;
                       upstream_text := str "{" ++ quoted "error" ++ str ":{"
                                        ++ quoted "message" ++ str ":"
                                        ++ quoted "Rate limit reached for org-123"
                                        ++ str "}}" |}.

Definition sample_form : list (jsstring * JSON) :=
  [ (str "domain", JString (str "fitness"));
    (str "audience", JString (str "students"));
    (str "difficulty", JString (str "beginner"));
    (str "time_available_days", JNumber (Number false 3 0));
    (str "mode", JString (str "hackathon")) ].

(** A gateway that answers 200 with the body [{"ideas":[]}]. *)
Definition no_ideas_gateway : FetchCall -> FetchOutcome :=
  fun _ => Responds {| upstream_status := 200;
                       upstream_text := str "{" ++ quoted "ideas" ++ str ":[]}" |}.

(** An engine for the runs below: V8's message texts. *)
Definition sample_message (e : EngineError) : jsstring :=
  match e with
  | JsonSyntax _ => str "Unexpected token in JSON"
  | DestructureNull => str "Cannot destructure 'null' as it is null."
  | ReadOfNullish prop =>
      str "Cannot read properties of undefined (reading '" ++ prop ++ str "')"
  | NotAFunction prop => prop ++ str " is not a function"
  | NotPrimitive => str "Cannot convert object to primitive value"
  end.

(** [Number::toString] on the literals of the runs below, which are
    non-negative integers without exponent. *)
Definition integer_to_string (n : number) : jsstring :=
  (if neg n then str "-" else []) ++ of_N (mantissa n).

Definition sample_key : option jsstring := Some (str "sk-test").


(** Neither end of the text is white space. *)
Definition trimmed (t : jsstring) : Prop :=
  trim_start t = t /\ trim_start (rev t) = rev t.

(** *** Counting the outbound calls *)

Definition is_fetch (e : Effect) : bool :=
  match e with
  | fetch_sent _ => true
  | _ => false
  end.

(** The outbound calls of a log, in order. *)
Definition outbound (log : list Effect) : list Effect := filter is_fetch log.

(** *** The controller's requests and state setters *)

Definition is_ui_fetch (e : UiEffect) : bool :=
  match e with
  | ui_fetch _ => true
  | _ => false
  end.

Definition sets_loading (e : UiEffect) : bool :=
  match e with
  | setIsLoading _ => true
  | _ => false
  end.

(** The client receives the gateway's response: the same status, and a
    body text that parses back to the value the gateway serialised. *)
Definition delivered (response : Response) (r : Upstream) : Prop :=
  upstream_status r = status response
  /\ exists v, body response = Stringified v /\ JSON_parse (upstream_text r) = Some v.

(** *** Further sample inputs *)

(** The reply the system instruction asks for when no JSON can be
    produced. *)
Definition escape_hatch_reply : jsstring :=
  str "{" ++ quoted "error" ++ str ":" ++ quoted "could not produce json" ++ str "}".

Definition escape_hatch : JSON :=
  JObject [(str "error", JString (str "could not produce json"))].

Definition garbled_request : Request := {| method := str "POST"; payload := str "domain=fitness" |}.

Definition array_request : Request := {| method := str "POST"; payload := str "[1,2]" |}.

Definition failing_network : FetchCall -> FetchOutcome :=
  fun _ => Rejects (ErrorObject (str "error sending request")).

(** An endpoint that answers 200 with no choices. *)
Definition no_choices : FetchCall -> FetchOutcome :=
  fun _ => Responds {| upstream_status := 200;
                       upstream_text := str "{" ++ quoted "choices" ++ str ":[]}" |}.

(** A gateway, as the controller sees it, that answers 400 with the
    missing-fields body. *)
Definition rejecting_gateway : FetchCall -> FetchOutcome :=
  fun _ => Responds
             {| upstream_status := 400;
                upstream_text :=
                  str "{" ++ quoted "error" ++ str ":"
                  ++ quoted "Missing required fields: domain, audience, difficulty, time_available_days, mode"
                  ++ str "}" |}.

(** *** Further sample inputs *)

(** A body whose [domain] has an own [toString] property. *)
Definition unprintable_payload : jsstring :=
  str "{" ++ quoted "domain" ++ str ":{" ++ quoted "toString" ++ str ":1},"
  ++ quoted "audience" ++ str ":" ++ quoted "students" ++ str ","
  ++ quoted "difficulty" ++ str ":" ++ quoted "beginner" ++ str ","
  ++ quoted "time_available_days" ++ str ":3,"
  ++ quoted "mode" ++ str ":" ++ quoted "hackathon" ++ str "}".

Definition unprintable_form : JSON :=
  JObject
    [ (str "domain", JObject [(str "toString", JNumber (Number false 1 0))]);
      (str "audience", JString (str "students"));
      (str "difficulty", JString (str "beginner"));
      (str "time_available_days", JNumber (Number false 3 0));
      (str "mode", JString (str "hackathon")) ].

Definition unprintable_request : Request :=
  {| method := str "POST"; payload := unprintable_payload |}.




(** A valid reply with a tagged fence inside a string value. *)
Definition tagged_reply : jsstring :=
  str "{" ++ quoted "ideas" ++ str ":[{" ++ quoted "architecture" ++ str ":"
  ++ quoted "```json" ++ str "}]}".

(** ** Properties *)

(** *** Sequencing *)

Lemma bind_step {E A B} (c : M E A) (k : A -> M E B) l1 a :
  c = (l1, Normal a) -> bind c k = (l1 ++ fst (k a), snd (k a)).
Proof. intros ->. unfold bind. destruct (k a); reflexivity. Qed.

Lemma bind_abort {E A B} (c : M E A) (k : A -> M E B) l1 e :
  c = (l1, Throws e) -> bind c k = (l1, Throws e).
Proof. intros ->. reflexivity. Qed.

(** *** The coercion stage *)

(** The value the direct parse leaves in [parsedData] is what
    [JSON.parse] makes of the cleaned text, and it is an object with
    an array under [ideas]. *)
Lemma direct_normal text log v :
  direct text = (log, Normal v) ->
  JSON_parse (cleanContent text) = Some v
  /\ exists props items,
      v = JObject props /\ obj_get (str "ideas") props = Some (JArray items).
Proof.
  unfold direct, json_of. destruct (JSON_parse (cleanContent text)) as [d|]; [|discriminate].
  destruct d as [ | b | n | s | items | props ]; try discriminate.
  unfold member, bind, ret, throw, emit.
  destruct (obj_get (str "ideas") props) as [[ | b | n | s | items | props' ]|] eqn:G;
    simpl; try discriminate;
    try (destruct b; discriminate);
    try (destruct (rounds_to_zero n); discriminate);
    try (destruct s; discriminate).
  intros H. inversion H; subst. split; [reflexivity|]. eauto.
Qed.

Lemma recover_direct text log v :
  direct text = (log, Normal v) -> recover text = (log, Normal (inl v)).
Proof.
  intros D. unfold recover. rewrite (bind_step _ _ _ _ D). simpl.
  rewrite app_nil_r. reflexivity.
Qed.

Lemma recover_fallback text log e :
  direct text = (log, Throws e) ->
  recover text = (log ++ parse_error_log text e, Normal (fallback text)).
Proof.
  intros D. unfold recover. rewrite (bind_abort _ _ _ _ D).
  unfold try_catch, fallback, parse_error_log, bind, emit, ret.
  destruct (jsonMatch text) as [block|]; [destruct (JSON_parse block)|]; reflexivity.
Qed.

Lemma coerce_direct text log v :
  direct text = (log, Normal v) -> coerce text = (log, Normal (json_response 200 v)).
Proof.
  intros D. unfold coerce. rewrite (bind_step _ _ _ _ (recover_direct _ _ _ D)).
  simpl. rewrite app_nil_r. reflexivity.
Qed.

Lemma coerce_fallback text log e :
  direct text = (log, Throws e) ->
  coerce text = (log ++ parse_error_log text e, Normal (respond (fallback text))).
Proof.
  intros D. unfold coerce. rewrite (bind_step _ _ _ _ (recover_fallback _ _ _ D)).
  destruct (fallback text); simpl; rewrite app_nil_r; reflexivity.
Qed.

(** *** What a stage logs *)

Lemma logs_ret {E A} (P : E -> Prop) (a : A) : logs P (ret a).
Proof. constructor. Qed.

Lemma logs_throw {E A} (P : E -> Prop) e : logs P (@throw E A e).
Proof. constructor. Qed.

Lemma logs_emit {E} (P : E -> Prop) e : P e -> logs P (emit e).
Proof. intros H. repeat constructor. exact H. Qed.

Lemma logs_bind {E A B} (P : E -> Prop) (c : M E A) (k : A -> M E B) :
  logs P c -> (forall a, logs P (k a)) -> logs P (bind c k).
Proof.
  unfold logs, bind. destruct c as [l1 [a|e]]; simpl; intros H K; [|exact H].
  specialize (K a). destruct (k a) as [l2 r]. simpl in *.
  apply Forall_app. split; assumption.
Qed.

Lemma logs_try_catch {E A} (P : E -> Prop) (c : M E A) handler :
  logs P c -> (forall e, logs P (handler e)) -> logs P (try_catch c handler).
Proof.
  unfold logs, try_catch. destruct c as [l1 [a|e]]; simpl; intros H K; [exact H|].
  specialize (K e). destruct (handler e) as [l2 r]. simpl in *.
  apply Forall_app. split; assumption.
Qed.

Lemma logs_json_of {E} (P : E -> Prop) text : logs P (@json_of E text).
Proof. unfold json_of. destruct (JSON_parse text); constructor. Qed.

Lemma logs_member {E} (P : E -> Prop) name base : logs P (@member E name base).
Proof. unfold member. destruct base as [[]|]; constructor. Qed.

Lemma logs_first {E} (P : E -> Prop) base : logs P (@first E base).
Proof. unfold first. destruct base as [[]|]; constructor. Qed.

Lemma logs_as_string {E} (P : E -> Prop) name v : logs P (@as_string E name v).
Proof. unfold as_string. destruct v as [[]|]; constructor. Qed.

Lemma quiet_log log : Forall quiet log -> forall call, ~ In (fetch_sent call) log.
Proof.
  intros H call C. rewrite Forall_forall in H. exact (H _ C).
Qed.

Ltac logs_steps :=
  repeat first
    [ apply logs_bind; [|intros]
    | apply logs_try_catch; [|intros]
    | apply logs_ret | apply logs_throw
    | apply logs_emit; exact I
    | apply logs_json_of | apply logs_member | apply logs_first
    | apply logs_as_string ].

Lemma reply_text_quiet u : logs quiet (reply_text u).
Proof. unfold reply_text. logs_steps. Qed.

Lemma direct_quiet text : logs quiet (direct text).
Proof.
  unfold direct. logs_steps.
  destruct (negb (truthy a0) || negb (isArray a0)); logs_steps.
Qed.

Lemma coerce_quiet text : logs quiet (coerce text).
Proof.
  unfold coerce, recover. apply logs_bind.
  - apply logs_try_catch.
    + apply logs_bind; [apply direct_quiet|intros; apply logs_ret].
    + intros e. do 2 (apply logs_bind; [apply logs_emit; exact I|intros]).
      destruct (jsonMatch text) as [block|]; [destruct (JSON_parse block)|];
        apply logs_ret.
  - intros [v|response]; apply logs_ret.
Qed.

(** The coercion stage never throws. *)
Lemma coerce_returns text : exists log response, coerce text = (log, Normal response).
Proof.
  destruct (direct text) as [log [v|e]] eqn:D.
  - eexists _, _. apply coerce_direct. exact D.
  - eexists _, _. apply coerce_fallback. exact D.
Qed.

(** *** The stages before the coercion *)

(** Exactly one call is sent, first; a response returned early by this
    stage is the mapping of a non-2xx status. *)
Lemma relay_spec upstream prompt :
  exists rest,
    fst (relay upstream prompt) = fetch_sent (completion_call prompt) :: rest
    /\ Forall quiet rest
    /\ match upstream (completion_call prompt) with
       | Responds u =>
           if ok u
           then forall response, snd (relay upstream prompt) <> Normal (inl response)
           else snd (relay upstream prompt)
                = Normal (inl (api_error_response (upstream_status u)))
       | Rejects e => snd (relay upstream prompt) = Throws e
       end.
Proof.
  unfold relay, fetch.
  destruct (upstream (completion_call prompt)) as [u|e]; simpl; [|eauto].
  destruct (ok u); simpl; [|eexists; repeat split; repeat constructor].
  pose proof (reply_text_quiet u) as Q. unfold logs in Q.
  destruct (reply_text u) as [l [t|e]]; simpl in *.
  - exists (l ++ []). rewrite app_nil_r. repeat split; [exact Q|discriminate].
  - exists l. repeat split; [exact Q|discriminate].
Qed.

(** The stage up to the reply, by what the request body parses to. *)
Lemma obtain_spec upstream req :
  obtain upstream req =
    match JSON_parse (payload req) with
    | None => ([], Throws (engine_error (JsonSyntax (payload req))))
    | Some JNull => ([], Throws (engine_error DestructureNull))
    | Some received =>
        if missing_required (fields received)
        then ([params_log (fields received)], Normal (inl missing_fields_response))
        else (params_log (fields received) :: fst (prompted upstream (fields received)),
              snd (prompted upstream (fields received)))
    end.
Proof.
  unfold obtain, json_of, prompted.
  destruct (JSON_parse (payload req)) as [received|]; [|reflexivity].
  destruct received; try reflexivity;
    unfold destructure, converted, bind, ret, emit, throw; cbv beta iota;
    match goal with
    | |- context [missing_required ?p] =>
        destruct (missing_required p); [reflexivity|];
        destruct (userPrompt p) as [prompt|]; [|reflexivity];
        destruct (relay upstream prompt) as [l r]; reflexivity
    end.
Qed.

(** After a passed validation: no text, nothing sent and the
    [TypeError]; a text, the one call with it, first. *)
Lemma prompted_spec upstream p :
  match userPrompt p with
  | None => prompted upstream p = ([], Throws (engine_error NotPrimitive))
  | Some prompt =>
      exists rest,
        fst (prompted upstream p) = fetch_sent (completion_call prompt) :: rest
        /\ Forall quiet rest
        /\ match upstream (completion_call prompt) with
           | Responds u =>
               if ok u
               then forall response, snd (prompted upstream p) <> Normal (inl response)
               else snd (prompted upstream p)
                    = Normal (inl (api_error_response (upstream_status u)))
           | Rejects e => snd (prompted upstream p) = Throws e
           end
  end.
Proof.
  unfold prompted. destruct (userPrompt p) as [prompt|]; [|reflexivity].
  apply relay_spec.
Qed.

Lemma prompted_built upstream p prompt :
  userPrompt p = Some prompt -> prompted upstream p = relay upstream prompt.
Proof. unfold prompted. intros ->. reflexivity. Qed.

Lemma serve_preflight upstream req :
  JsString.eqb (method req) (str "OPTIONS") = true ->
  serve upstream req = ([], preflight).
Proof. unfold serve. intros ->. reflexivity. Qed.

Lemma serve_early upstream req log response :
  JsString.eqb (method req) (str "OPTIONS") = false ->
  obtain upstream req = (log, Normal (inl response)) ->
  serve upstream req = (log, response).
Proof.
  unfold serve, handle. intros -> O. rewrite (bind_step _ _ _ _ O). simpl.
  rewrite app_nil_r. reflexivity.
Qed.

Lemma serve_coerced upstream req log text l response :
  JsString.eqb (method req) (str "OPTIONS") = false ->
  obtain upstream req = (log, Normal (inr text)) ->
  coerce text = (l, Normal response) ->
  serve upstream req = (log ++ l, response).
Proof.
  unfold serve, handle. intros -> O C. rewrite (bind_step _ _ _ _ O). cbv beta iota.
  rewrite C. reflexivity.
Qed.

Lemma serve_caught upstream req log e :
  JsString.eqb (method req) (str "OPTIONS") = false ->
  obtain upstream req = (log, Throws e) ->
  serve upstream req = (log ++ [caught_log e], caught_response e).
Proof.
  unfold serve, handle. intros -> O. rewrite (bind_abort _ _ _ _ O). reflexivity.
Qed.

(** A response this stage returns early is one of two. *)
Lemma obtain_early upstream req log response :
  obtain upstream req = (log, Normal (inl response)) ->
  response = missing_fields_response
  \/ exists st, response = api_error_response st.
Proof.
  rewrite obtain_spec.
  destruct (JSON_parse (payload req)) as [received|]; [|discriminate].
  assert (snd (prompted upstream (fields received)) = Normal (inl response) ->
          exists st, response = api_error_response st) as K.
  { intros E. pose proof (prompted_spec upstream (fields received)) as S.
    destruct (userPrompt (fields received)) as [prompt|];
      [|rewrite S in E; discriminate].
    destruct S as (rest & _ & _ & R).
    destruct (upstream (completion_call prompt)) as [u|e].
    - destruct (ok u); [elim (R _ E)|]. rewrite R in E. inversion E. eauto.
    - rewrite R in E. discriminate. }
  destruct received; try discriminate;
    destruct (missing_required _);
    intros H; inversion H; subst; auto.
Qed.

(** Every response is the preflight response or a JSON response. *)
Lemma serve_response_form upstream req :
  snd (serve upstream req) = preflight
  \/ exists st v, snd (serve upstream req) = json_response st v.
Proof.
  destruct (JsString.eqb (method req) (str "OPTIONS")) eqn:Hm.
  - left. rewrite serve_preflight by exact Hm. reflexivity.
  - right. destruct (obtain upstream req) as [log [[response|text]|e]] eqn:O.
    + rewrite (serve_early _ _ _ _ Hm O). simpl.
      destruct (obtain_early _ _ _ _ O) as [->|[st ->]]; eexists _, _; reflexivity.
    + destruct (direct text) as [l [v|e]] eqn:D.
      * rewrite (serve_coerced _ _ _ _ _ _ Hm O (coerce_direct _ _ _ D)).
        eexists _, _; reflexivity.
      * rewrite (serve_coerced _ _ _ _ _ _ Hm O (coerce_fallback _ _ _ D)).
        simpl. unfold fallback.
        destruct (jsonMatch text) as [block|]; [destruct (JSON_parse block)|];
          eexists _, _; reflexivity.
    + rewrite (serve_caught _ _ _ _ Hm O). eexists _, _; reflexivity.
Qed.

(** *** C7 *)

(** C7. Every response of the gateway, the preflight answer as well as
    every success and error response, carries
    [Access-Control-Allow-Origin: *] and the allow-list of request
    headers. *)
Theorem cors_headers_on_every_response upstream req :
  obj_get (str "Access-Control-Allow-Origin") (headers (snd (serve upstream req)))
  = Some (str "*")
  /\ obj_get (str "Access-Control-Allow-Headers") (headers (snd (serve upstream req)))
     = Some (str "authorization, x-client-info, apikey, content-type")
  /\ (JsString.eqb (method req) (str "OPTIONS") = true ->
      status (snd (serve upstream req)) = 200
      /\ body (snd (serve upstream req)) = NoBody).
Proof.
  split; [|split].
  - destruct (serve_response_form upstream req) as [->|(st & v & ->)]; reflexivity.
  - destruct (serve_response_form upstream req) as [->|(st & v & ->)]; reflexivity.
  - intros Hm. rewrite serve_preflight by exact Hm. split; reflexivity.
Qed.

(** *** The outcomes of a handled request *)

Lemma serve_outcome upstream req :
  JsString.eqb (method req) (str "OPTIONS") = false ->
  Outcome upstream req (snd (serve upstream req)).
Proof.
  intros Hm. destruct (obtain upstream req) as [log [[response|text]|e]] eqn:O.
  - rewrite (serve_early _ _ _ _ Hm O). simpl.
    revert O. rewrite obtain_spec.
    destruct (JSON_parse (payload req)) as [received|] eqn:P; [|discriminate].
    assert (received <> JNull ->
            (if missing_required (fields received)
             then ([params_log (fields received)], Normal (inl missing_fields_response))
             else (params_log (fields received) :: fst (prompted upstream (fields received)),
                   snd (prompted upstream (fields received))))
            = (log, Normal (inl response)) ->
            Outcome upstream req response) as K.
    { intros NN. destruct (missing_required (fields received)) eqn:Mi.
      - intros H. inversion H; subst. eapply out_missing; eauto.
      - intros H. inversion H as [[L R]].
        pose proof (prompted_spec upstream (fields received)) as S.
        destruct (userPrompt (fields received)) as [prompt|] eqn:UP;
          [|rewrite S in R; discriminate].
        destruct S as (rest & _ & _ & S).
        destruct (upstream (completion_call prompt)) as [u|e] eqn:U.
        + destruct (ok u) eqn:Ok; [elim (S _ R)|].
          rewrite S in R. inversion R; subst. eapply out_api_error; eauto.
        + rewrite S in R. discriminate. }
    destruct received; try discriminate; apply K; discriminate.
  - assert (model_reply upstream req text) as MR by (split; [exact Hm|rewrite O; reflexivity]).
    destruct (direct text) as [l [v|e]] eqn:D.
    + rewrite (serve_coerced _ _ _ _ _ _ Hm O (coerce_direct _ _ _ D)).
      eapply out_direct; eauto.
    + rewrite (serve_coerced _ _ _ _ _ _ Hm O (coerce_fallback _ _ _ D)).
      simpl. unfold fallback.
      destruct (jsonMatch text) as [block|] eqn:J;
        [destruct (JSON_parse block) eqn:B|]; simpl.
      * eapply out_recovered; eauto.
      * eapply out_parse_failed; eauto.
      * eapply out_no_json; eauto.
  - rewrite (serve_caught _ _ _ _ Hm O). eapply out_caught; eauto.
Qed.

Lemma serve_log upstream req :
  JsString.eqb (method req) (str "OPTIONS") = false ->
  exists tail,
    fst (serve upstream req) = fst (obtain upstream req) ++ tail /\ Forall quiet tail.
Proof.
  intros Hm. destruct (obtain upstream req) as [log [[response|text]|e]] eqn:O.
  - rewrite (serve_early _ _ _ _ Hm O). exists []. simpl. rewrite app_nil_r. auto.
  - destruct (coerce_returns text) as (l & response & C).
    rewrite (serve_coerced _ _ _ _ _ _ Hm O C). exists l. split; [reflexivity|].
    pose proof (coerce_quiet text) as Q. unfold logs in Q. rewrite C in Q. exact Q.
  - rewrite (serve_caught _ _ _ _ Hm O). exists [caught_log e]. split; [reflexivity|].
    repeat constructor.
Qed.

(** The only outbound call is the completion call with the prompt of the
    validated fields, and it is sent exactly when validation passes and
    the prompt is built. *)
Lemma serve_fetches upstream req call :
  In (fetch_sent call) (fst (serve upstream req)) <->
  JsString.eqb (method req) (str "OPTIONS") = false
  /\ exists received prompt,
      JSON_parse (payload req) = Some received /\ received <> JNull
      /\ missing_required (fields received) = false
      /\ userPrompt (fields received) = Some prompt
      /\ call = completion_call prompt.
Proof.
  destruct (JsString.eqb (method req) (str "OPTIONS")) eqn:Hm.
  { rewrite serve_preflight by exact Hm. simpl. split; [tauto|intros [? _]; discriminate]. }
  destruct (serve_log upstream req Hm) as (tail & -> & Q).
  rewrite obtain_spec.
  destruct (JSON_parse (payload req)) as [received|] eqn:P.
  2:{ simpl. split.
      - intros C. elim (quiet_log _ Q _ C).
      - intros (_ & received & prompt & E & _). discriminate. }
  assert (received <> JNull ->
          In (fetch_sent call)
             (fst (if missing_required (fields received)
                   then ([params_log (fields received)],
                         Normal (inl missing_fields_response))
                   else (params_log (fields received)
                           :: fst (prompted upstream (fields received)),
                         snd (prompted upstream (fields received)))) ++ tail) <->
          false = false /\
          (exists received0 prompt,
              Some received = Some received0 /\ received0 <> JNull
              /\ missing_required (fields received0) = false
              /\ userPrompt (fields received0) = Some prompt
              /\ call = completion_call prompt)) as K.
  { intros NN. destruct (missing_required (fields received)) eqn:Mi; simpl.
    - split.
      + intros [C|C]; [discriminate|elim (quiet_log _ Q _ C)].
      + intros (_ & r0 & prompt & E & _ & Mi0 & _). inversion E; subst. congruence.
    - pose proof (prompted_spec upstream (fields received)) as S.
      destruct (userPrompt (fields received)) as [prompt|] eqn:UP.
      + destruct S as (rest & -> & QR & _). simpl. split.
        * intros [C|[C|C]]; [discriminate| |].
          -- inversion C; subst. split; [reflexivity|]. exists received, prompt. auto.
          -- apply in_app_or in C. destruct C as [C|C];
               [elim (quiet_log _ QR _ C)|elim (quiet_log _ Q _ C)].
        * intros (_ & r0 & prompt0 & E & _ & _ & UP0 & ->). inversion E; subst.
          rewrite UP in UP0. inversion UP0. auto.
      + rewrite S. simpl. split.
        * intros [C|C]; [discriminate|elim (quiet_log _ Q _ C)].
        * intros (_ & r0 & prompt0 & E & _ & _ & UP0 & _). inversion E; subst.
          rewrite UP in UP0. discriminate. }
  destruct received; try (apply K; discriminate).
  simpl. split.
  - intros C. elim (quiet_log _ Q _ C).
  - intros (_ & r0 & prompt & E & NN & _). inversion E; subst. congruence.
Qed.

(** *** C2 *)





(** *** C6 *)

(** C6. When the completion call the gateway sent is answered with a
    status outside 200 to 299, the response is 500 with body
    [{error: "OpenAI API error: <status>"}], the status in decimal; the
    answer's body text has no influence on the response. *)
Theorem upstream_error_mapped_to_500 upstream req call u :
  In (fetch_sent call) (fst (serve upstream req)) ->
  upstream call = Responds u ->
  ok u = false ->
  status (snd (serve upstream req)) = 500
  /\ body (snd (serve upstream req))
     = Stringified
         (JObject [(str "error",
                    JString (str "OpenAI API error: " ++ of_N (upstream_status u)))])
  /\ forall upstream' u',
      upstream' call = Responds u' -> upstream_status u' = upstream_status u ->
      snd (serve upstream' req) = snd (serve upstream req).
Proof.
  intros C U Ok. apply serve_fetches in C.
  destruct C as (Hm & received & prompt & P & NN & Mi & UP & ->).
  assert (forall up v,
             up (completion_call prompt) = Responds v -> ok v = false ->
             snd (serve up req) = api_error_response (upstream_status v)) as K.
  { intros up v Uv Okv.
    pose proof (prompted_spec up (fields received)) as R. rewrite UP in R.
    destruct R as (rest & _ & _ & R).
    rewrite Uv, Okv in R.
    assert (obtain up req
            = (params_log (fields received) :: fst (prompted up (fields received)),
               Normal (inl (api_error_response (upstream_status v))))) as O.
    { rewrite obtain_spec, P. destruct received; try congruence;
        rewrite Mi, R; reflexivity. }
    rewrite (serve_early _ _ _ _ Hm O). reflexivity. }
  rewrite (K _ _ U Ok). split; [reflexivity|]. split; [reflexivity|].
  intros upstream' u' U' S. rewrite (K upstream' u' U').
  - rewrite S. reflexivity.
  - unfold ok in *. rewrite S. exact Ok.
Qed.

(** *** The parser consumes its input and never runs out of fuel *)

Lemma upto_refl s : upto s s.
Proof. exists []. reflexivity. Qed.

Lemma upto_cons c s r : upto s r -> upto (c :: s) r.
Proof. intros [u ->]. exists (c :: u). reflexivity. Qed.

Lemma upto_trans a b c : upto a b -> upto b c -> upto a c.
Proof. intros [u ->] [w ->]. exists (u ++ w). rewrite app_assoc. reflexivity. Qed.

Lemma after_upto s r : after s r -> upto s r.
Proof. intros (u & _ & ->). exists u. reflexivity. Qed.

Lemma after_cons c s r : upto s r -> after (c :: s) r.
Proof. intros [u ->]. exists (c :: u). split; [discriminate|reflexivity]. Qed.

Lemma upto_after a b c : upto a b -> after b c -> after a c.
Proof.
  intros [u ->] (w & N & ->). exists (u ++ w). split.
  - destruct u; [exact N|discriminate].
  - rewrite app_assoc. reflexivity.
Qed.

Lemma after_after a b c : after a b -> upto b c -> after a c.
Proof.
  intros (u & N & ->) [w ->]. exists (u ++ w). split.
  - destruct u; [congruence|discriminate].
  - rewrite app_assoc. reflexivity.
Qed.

Lemma upto_length s r : upto s r -> (List.length r <= List.length s)%nat.
Proof. intros [u ->]. rewrite length_app. lia. Qed.

Lemma after_length s r : after s r -> (List.length r < List.length s)%nat.
Proof.
  intros (u & N & ->). rewrite length_app. destruct u; [congruence|simpl; lia].
Qed.

Lemma skip_ws_upto s : upto s (skip_ws s).
Proof.
  induction s as [|c s IH]; simpl; [apply upto_refl|].
  destruct (is_ws c); [apply upto_cons; exact IH|apply upto_refl].
Qed.

Lemma strip_prefix_app p s r : strip_prefix p s = Some r -> s = p ++ r.
Proof.
  revert s. induction p as [|x p IH]; simpl; intros s H.
  - inversion H. reflexivity.
  - destruct s as [|y s]; [discriminate|].
    destruct (x =? y) eqn:E; [|discriminate].
    apply N.eqb_eq in E. subst. f_equal. apply IH. exact H.
Qed.

Lemma string_body_after n : forall s acc k r,
  (List.length s <= n)%nat -> string_body s acc = Some (k, r) -> after s r.
Proof.
  induction n as [|n IH]; intros s acc k r L H.
  - destruct s; [discriminate|simpl in L; lia].
  - destruct s as [|c s]; [discriminate|]. simpl in H, L.
    destruct (c =? 34).
    { inversion H; subst. apply after_cons, upto_refl. }
    destruct (c =? 92).
    + destruct s as [|e s1]; [discriminate|]. simpl in L.
      destruct (e =? 117).
      * destruct s1 as [|h1 [|h2 [|h3 [|h4 s2]]]]; try discriminate.
        destruct (hex4 h1 h2 h3 h4); [|discriminate]. simpl in L.
        apply IH in H; [|lia].
        apply after_cons. do 5 apply upto_cons. apply after_upto. exact H.
      * destruct (escape e); [|discriminate].
        apply IH in H; [|lia].
        apply after_cons, upto_cons, after_upto. exact H.
    + destruct (c <? 32); [discriminate|].
      apply IH in H; [|lia]. apply after_cons, after_upto. exact H.
Qed.

Lemma digits_upto s : forall acc count v k r,
  digits s acc count = (v, k, r) -> upto s r.
Proof.
  induction s as [|c s IH]; simpl; intros acc count v k r H.
  - inversion H. apply upto_refl.
  - destruct (is_digit c).
    + apply upto_cons. eapply IH. exact H.
    + inversion H. apply upto_refl.
Qed.

Lemma int_part_after s v r : int_part s = Some (v, r) -> after s r.
Proof.
  unfold int_part. destruct s as [|c s]; [discriminate|].
  destruct (c =? 48).
  { intros H. inversion H; subst. apply after_cons, upto_refl. }
  destruct (is_digit c) eqn:D; [|discriminate].
  simpl. rewrite D.
  destruct (digits s _ 1) as [[v' k] r'] eqn:E.
  intros H. inversion H; subst. apply after_cons. eapply digits_upto. exact E.
Qed.

Lemma frac_part_upto m s m' z r : frac_part m s = Some (m', z, r) -> upto s r.
Proof.
  unfold frac_part. destruct s as [|c s].
  { intros H. inversion H. apply upto_refl. }
  destruct (c =? 46).
  - destruct (digits s m 0) as [[v k] r'] eqn:E. destruct k; [discriminate|].
    intros H. inversion H; subst. apply upto_cons. eapply digits_upto. exact E.
  - intros H. inversion H. apply upto_refl.
Qed.

Lemma exp_digits_upto b s z r : exp_digits b s = Some (z, r) -> upto s r.
Proof.
  unfold exp_digits. destruct (digits s 0 0) as [[v k] r'] eqn:E.
  destruct k; [discriminate|]. intros H. inversion H; subst.
  eapply digits_upto. exact E.
Qed.

Lemma exp_part_upto s z r : exp_part s = Some (z, r) -> upto s r.
Proof.
  unfold exp_part. destruct s as [|c s].
  { intros H. inversion H. apply upto_refl. }
  destruct ((c =? 101) || (c =? 69)).
  - destruct s as [|sign s1]; [discriminate|].
    destruct (sign =? 43).
    { intros H. do 2 apply upto_cons. eapply exp_digits_upto. exact H. }
    destruct (sign =? 45).
    { intros H. do 2 apply upto_cons. eapply exp_digits_upto. exact H. }
    intros H. apply upto_cons. eapply exp_digits_upto. exact H.
  - intros H. inversion H. apply upto_refl.
Qed.

Lemma unsigned_number_after b s n r : unsigned_number b s = Some (n, r) -> after s r.
Proof.
  unfold unsigned_number.
  destruct (int_part s) as [[i r1]|] eqn:I; [|discriminate].
  destruct (frac_part i r1) as [[[m z] r2]|] eqn:F; [|discriminate].
  destruct (exp_part r2) as [[e r3]|] eqn:X; [|discriminate].
  intros H. inversion H; subst.
  eapply after_after; [eapply int_part_after; exact I|].
  eapply upto_trans; [eapply frac_part_upto; exact F|eapply exp_part_upto; exact X].
Qed.

Lemma number_literal_after s n r : number_literal s = Some (n, r) -> after s r.
Proof.
  unfold number_literal. destruct s as [|c s]; [discriminate|].
  destruct (c =? 45).
  - intros H. apply after_cons, after_upto. eapply unsigned_number_after. exact H.
  - apply unsigned_number_after.
Qed.

(** A scalar is read from a non-empty prefix and is not an object. *)
Lemma scalar_after s v r : scalar s = Parsed v r -> after s r /\ ~ is_object v.
Proof.
  unfold scalar. destruct s as [|c s]; [discriminate|].
  destruct (c =? 34).
  { destruct (string_body s []) as [[k r']|] eqn:B; [|discriminate]. simpl.
    intros H. inversion H; subst. split.
    - apply after_cons, after_upto. eapply string_body_after; [|exact B]. constructor.
    - intros [p E]. discriminate. }
  destruct (strip_prefix (str "true") (c :: s)) as [r'|] eqn:T.
  { intros H. inversion H; subst. apply strip_prefix_app in T. split.
    - exists (str "true"). split; [discriminate|exact T].
    - intros [p E]. discriminate. }
  destruct (strip_prefix (str "false") (c :: s)) as [r'|] eqn:F.
  { intros H. inversion H; subst. apply strip_prefix_app in F. split.
    - exists (str "false"). split; [discriminate|exact F].
    - intros [p E]. discriminate. }
  destruct (strip_prefix (str "null") (c :: s)) as [r'|] eqn:U.
  { intros H. inversion H; subst. apply strip_prefix_app in U. split.
    - exists (str "null"). split; [discriminate|exact U].
    - intros [p E]. discriminate. }
  destruct (number_literal (c :: s)) as [[n r']|] eqn:Nm; [|discriminate]. simpl.
  intros H. inversion H; subst. split.
  - eapply number_literal_after. exact Nm.
  - intros [p E]. discriminate.
Qed.

Lemma closes_upto s mid r : s = mid ++ rbrace :: r -> upto s r.
Proof. intros ->. exists (mid ++ [rbrace]). rewrite <- app_assoc. reflexivity. Qed.

Lemma upto_closes s c r mid t :
  upto s (c :: r) -> r = mid ++ rbrace :: t -> exists mid', s = mid' ++ rbrace :: t.
Proof.
  intros [u ->] ->. exists (u ++ c :: mid). rewrite <- app_assoc. reflexivity.
Qed.

(** What each parsing function has read when it succeeds. *)
Lemma parse_after fuel :
  (forall s v r, value fuel s = Parsed v r ->
                 after s r /\ (is_object v -> braces_before s r))
  /\ (forall s acc v r, elements fuel s acc = Parsed v r ->
                        after s r /\ ~ is_object v)
  /\ (forall s acc v r, members fuel s acc = Parsed v r ->
                        (exists mid, s = mid ++ rbrace :: r) /\ is_object v).
Proof.
  induction fuel as [|fuel (IHv & IHe & IHm)].
  { repeat split; intros; discriminate. }
  split; [|split].
  - intros s v r. simpl.
    pose proof (skip_ws_upto s) as W.
    destruct (skip_ws s) as [|c r0]; [discriminate|].
    destruct (c =? 123) eqn:C.
    + apply N.eqb_eq in C. subst c.
      pose proof (skip_ws_upto r0) as W2.
      destruct (skip_ws r0) as [|c' r']; [discriminate|].
      destruct (c' =? 125) eqn:C'.
      * apply N.eqb_eq in C'. subst c'. intros H. inversion H; subst.
        split.
        -- eapply upto_after; [exact W|]. apply after_cons.
           eapply upto_trans; [exact W2|]. apply upto_cons, upto_refl.
        -- intros _. destruct W as [u1 ->]. destruct W2 as [u2 ->].
           exists u1, u2. reflexivity.
      * intros H. apply IHm in H. destruct H as ([mid E] & Ob).
        split.
        -- eapply upto_after; [exact W|]. apply after_cons.
           eapply upto_trans; [exact W2|]. eapply closes_upto. exact E.
        -- intros _. destruct W as [u1 ->]. destruct W2 as [u2 ->].
           exists u1, (u2 ++ mid). rewrite E, <- app_assoc. reflexivity.
    + destruct (c =? 91) eqn:B.
      * pose proof (skip_ws_upto r0) as W2.
        destruct (skip_ws r0) as [|c' r']; [discriminate|].
        destruct (c' =? 93).
        -- intros H. inversion H; subst. split.
           ++ eapply upto_after; [exact W|]. apply after_cons.
              eapply upto_trans; [exact W2|]. apply upto_cons, upto_refl.
           ++ intros [p E]. discriminate.
        -- intros H. apply IHe in H. destruct H as (A & NO). split.
           ++ eapply upto_after; [exact W|]. apply after_cons.
              eapply upto_trans; [exact W2|]. apply after_upto. exact A.
           ++ intros O. elim (NO O).
      * intros H. apply scalar_after in H. destruct H as (A & NO). split.
        -- eapply upto_after; [exact W|exact A].
        -- intros O. elim (NO O).
  - intros s acc v r. simpl.
    destruct (value fuel s) as [v1 r1| |] eqn:V; try discriminate.
    apply IHv in V. destruct V as (A1 & _).
    pose proof (skip_ws_upto r1) as W.
    destruct (skip_ws r1) as [|c r']; [discriminate|].
    destruct (c =? 44).
    + intros H. apply IHe in H. destruct H as (A & NO). split; [|exact NO].
      eapply after_after; [exact A1|].
      eapply upto_trans; [exact W|]. apply upto_cons, after_upto. exact A.
    + destruct (c =? 93); [|discriminate].
      intros H. inversion H; subst. split.
      * eapply after_after; [exact A1|].
        eapply upto_trans; [exact W|]. apply upto_cons, upto_refl.
      * intros [p E]. discriminate.
  - intros s acc v r. simpl.
    pose proof (skip_ws_upto s) as W.
    destruct (skip_ws s) as [|q r0]; [discriminate|].
    destruct (q =? 34); [|discriminate].
    destruct (string_body r0 []) as [[k r1]|] eqn:K; [|discriminate].
    apply (string_body_after _ _ _ _ _ (le_n _)) in K.
    pose proof (skip_ws_upto r1) as W1.
    destruct (skip_ws r1) as [|colon r2]; [discriminate|].
    destruct (colon =? 58); [|discriminate].
    destruct (value fuel r2) as [v1 r3| |] eqn:V; try discriminate.
    apply IHv in V. destruct V as (A3 & _).
    pose proof (skip_ws_upto r3) as W3.
    destruct (skip_ws r3) as [|c r4]; [discriminate|].
    assert (upto s (c :: r4)) as U.
    { eapply upto_trans; [exact W|]. apply upto_cons.
      eapply upto_trans; [apply after_upto; exact K|].
      eapply upto_trans; [exact W1|]. apply upto_cons.
      eapply upto_trans; [apply after_upto; exact A3|exact W3]. }
    destruct (c =? 44).
    + intros H. apply IHm in H. destruct H as ([mid E] & Ob). split; [|exact Ob].
      eapply upto_closes; [exact U|exact E].
    + destruct (c =? 125) eqn:C; [|discriminate].
      apply N.eqb_eq in C. subst c.
      intros H. inversion H; subst. split.
      * destruct U as [u ->]. exists u. reflexivity.
      * eexists. reflexivity.
Qed.

Lemma value_after fuel s v r : value fuel s = Parsed v r -> after s r.
Proof. intros H. apply (proj1 (parse_after fuel)) in H. tauto. Qed.

(** The fuel [JSON_parse] starts with is never used up, so a [None]
    always stands for a syntax error. *)
Lemma enough_fuel fuel :
  (forall s, (2 * List.length s + 1 <= fuel)%nat -> value fuel s <> OutOfFuel)
  /\ (forall s acc, (2 * List.length s + 2 <= fuel)%nat ->
                    elements fuel s acc <> OutOfFuel)
  /\ (forall s acc, (2 * List.length s + 2 <= fuel)%nat ->
                    members fuel s acc <> OutOfFuel).
Proof.
  induction fuel as [|fuel (IHv & IHe & IHm)].
  { repeat split; intros; lia. }
  split; [|split].
  - intros s L. simpl.
    pose proof (upto_length _ _ (skip_ws_upto s)) as W.
    destruct (skip_ws s) as [|c r0]; [discriminate|]. simpl in W.
    pose proof (upto_length _ _ (skip_ws_upto r0)) as W2.
    destruct (c =? 123).
    + destruct (skip_ws r0) as [|c' r']; [discriminate|].
      destruct (c' =? 125); [discriminate|]. apply IHm. simpl in *. lia.
    + destruct (c =? 91).
      * destruct (skip_ws r0) as [|c' r']; [discriminate|].
        destruct (c' =? 93); [discriminate|]. apply IHe. simpl in *. lia.
      * unfold scalar. destruct (c =? 34).
        { destruct (string_body r0 []) as [[]|]; discriminate. }
        repeat match goal with
               | |- context [strip_prefix ?p ?x] => destruct (strip_prefix p x)
               end; try discriminate.
        destruct (number_literal (c :: r0)) as [[]|]; discriminate.
  - intros s acc L. simpl.
    destruct (value fuel s) as [v1 r1| |] eqn:V.
    + pose proof (after_length _ _ (value_after _ _ _ _ V)) as A.
      pose proof (upto_length _ _ (skip_ws_upto r1)) as W.
      destruct (skip_ws r1) as [|c r']; [discriminate|]. simpl in W.
      destruct (c =? 44); [apply IHe; lia|].
      destruct (c =? 93); discriminate.
    + discriminate.
    + exfalso. revert V. apply IHv. lia.
  - intros s acc L. simpl.
    pose proof (upto_length _ _ (skip_ws_upto s)) as W.
    destruct (skip_ws s) as [|q r0]; [discriminate|]. simpl in W.
    destruct (q =? 34); [|discriminate].
    destruct (string_body r0 []) as [[k r1]|] eqn:K; [|discriminate].
    apply (string_body_after _ _ _ _ _ (le_n _)) in K. apply after_length in K.
    pose proof (upto_length _ _ (skip_ws_upto r1)) as W1.
    destruct (skip_ws r1) as [|colon r2]; [discriminate|]. simpl in W1.
    destruct (colon =? 58); [|discriminate].
    destruct (value fuel r2) as [v1 r3| |] eqn:V.
    + pose proof (after_length _ _ (value_after _ _ _ _ V)) as A.
      pose proof (upto_length _ _ (skip_ws_upto r3)) as W3.
      destruct (skip_ws r3) as [|c r4]; [discriminate|]. simpl in W3.
      destruct (c =? 44); [apply IHm; lia|].
      destruct (c =? 125); discriminate.
    + discriminate.
    + exfalso. revert V. apply IHv. lia.
Qed.

Lemma JSON_parse_fuel s : value (fuel_for s) s <> OutOfFuel.
Proof. apply (proj1 (enough_fuel _)). unfold fuel_for. lia. Qed.

(** A text that [JSON.parse] turns into an object holds an opening brace
    and a closing brace behind it. *)
Lemma JSON_parse_object s props :
  JSON_parse s = Some (JObject props) -> exists r, braces_before s r.
Proof.
  unfold JSON_parse. destruct (value (fuel_for s) s) as [v r| |] eqn:V; try discriminate.
  destruct (skip_ws r); [|discriminate]. intros H. inversion H; subst.
  exists r. apply (proj1 (parse_after _)) in V. apply V. eexists. reflexivity.
Qed.

(** A text that starts with an opening brace parses to an object, if at
    all. *)
Lemma JSON_parse_braced s v :
  JSON_parse (lbrace :: s) = Some v -> is_object v.
Proof.
  unfold JSON_parse.
  destruct (value (fuel_for (lbrace :: s)) (lbrace :: s)) as [w r| |] eqn:V;
    try discriminate.
  destruct (skip_ws r); [|discriminate]. intros H. inversion H; subst.
  unfold fuel_for in V. simpl in V.
  destruct (skip_ws s) as [|c' r']; [discriminate|].
  destruct (c' =? 125).
  - inversion V. eexists. reflexivity.
  - apply (proj2 (proj2 (parse_after _))) in V. tauto.
Qed.

(** *** The brace-delimited block *)

Lemma through_last_rbrace_none s :
  ~ In rbrace s -> through_last_rbrace s = None.
Proof.
  induction s as [|c s IH]; simpl; [reflexivity|]. intros N.
  rewrite IH by tauto. destruct (c =? rbrace) eqn:E; [|reflexivity].
  apply N.eqb_eq in E. tauto.
Qed.

Lemma through_last_rbrace_last mid post :
  ~ In rbrace post ->
  through_last_rbrace (mid ++ rbrace :: post) = Some (mid ++ [rbrace]).
Proof.
  intros N. induction mid as [|c mid IH]; simpl.
  - rewrite through_last_rbrace_none by exact N. reflexivity.
  - rewrite IH. reflexivity.
Qed.

Lemma through_last_rbrace_some s m :
  through_last_rbrace s = Some m ->
  exists mid post, s = mid ++ rbrace :: post /\ m = mid ++ [rbrace] /\ ~ In rbrace post.
Proof.
  revert m. induction s as [|c s IH]; simpl; intros m; [discriminate|].
  destruct (through_last_rbrace s) as [m'|] eqn:T.
  - intros H. inversion H; subst.
    destruct (IH _ eq_refl) as (mid & post & -> & -> & N).
    exists (c :: mid), post. auto.
  - destruct (c =? rbrace) eqn:E; [|discriminate].
    apply N.eqb_eq in E. subst c. intros H. inversion H; subst.
    exists [], s. repeat split.
    intros I. revert T. clear -I. induction s as [|d s IH]; [elim I|]. simpl.
    destruct (through_last_rbrace s); [discriminate|].
    destruct I as [->|I]; [discriminate|]. specialize (IH I). congruence.
Qed.

(** The match runs from the first opening brace through the last
    closing brace. *)
Lemma jsonMatch_block pre mid post :
  ~ In lbrace pre -> ~ In rbrace post ->
  jsonMatch (pre ++ lbrace :: mid ++ rbrace :: post) = Some (lbrace :: mid ++ [rbrace]).
Proof.
  intros NL NR. induction pre as [|c pre IH]; simpl.
  - rewrite through_last_rbrace_last by exact NR. reflexivity.
  - destruct (c =? lbrace) eqn:E.
    + apply N.eqb_eq in E. simpl in NL. tauto.
    + apply IH. simpl in NL. tauto.
Qed.

Lemma jsonMatch_some s block :
  jsonMatch s = Some block ->
  exists pre mid post,
    s = pre ++ lbrace :: mid ++ rbrace :: post
    /\ block = lbrace :: mid ++ [rbrace]
    /\ ~ In rbrace post.
Proof.
  induction s as [|c s IH]; simpl; [discriminate|].
  destruct (c =? lbrace) eqn:E.
  - apply N.eqb_eq in E. subst c.
    destruct (through_last_rbrace s) as [m|] eqn:T.
    + intros H. inversion H; subst.
      destruct (through_last_rbrace_some _ _ T) as (mid & post & -> & -> & N).
      exists [], mid, post. auto.
    + intros H. destruct (IH H) as (pre & mid & post & -> & -> & N).
      exists (lbrace :: pre), mid, post. auto.
  - intros H. destruct (IH H) as (pre & mid & post & -> & -> & N).
    exists (c :: pre), mid, post. auto.
Qed.

Lemma jsonMatch_none s : ~ has_braces s -> jsonMatch s = None.
Proof.
  intros N. destruct (jsonMatch s) as [block|] eqn:J; [|reflexivity].
  destruct (jsonMatch_some _ _ J) as (pre & mid & post & E & _).
  elim N. exists pre, mid, post. exact E.
Qed.

Lemma subseq_refl s : subseq s s.
Proof. induction s; constructor; assumption. Qed.

Lemma subseq_app_l u a b : subseq a b -> subseq a (u ++ b).
Proof. intros H. induction u; simpl; [exact H|constructor; assumption]. Qed.

Lemma subseq_cons_inv c a b :
  subseq (c :: a) b -> exists b1 b2, b = b1 ++ c :: b2 /\ subseq a b2.
Proof.
  intros H. remember (c :: a) as x eqn:X. induction H as [|d a' b H IH|d a' b H IH].
  - discriminate.
  - destruct (IH X) as (b1 & b2 & -> & S). exists (d :: b1), b2. auto.
  - inversion X; subst. exists [], b. auto.
Qed.

Lemma subseq_app_inv x y b :
  subseq (x ++ y) b -> exists b1 b2, b = b1 ++ b2 /\ subseq y b2.
Proof.
  revert b. induction x as [|c x IH]; simpl; intros b H.
  - exists [], b. auto.
  - destruct (subseq_cons_inv _ _ _ H) as (b1 & b2 & -> & S).
    destruct (IH _ S) as (b3 & b4 & -> & S').
    exists (b1 ++ c :: b3), b4. split; [|exact S'].
    rewrite <- app_assoc. reflexivity.
Qed.

Lemma has_braces_subseq a b : subseq a b -> has_braces a -> has_braces b.
Proof.
  intros S (pre & mid & post & ->).
  destruct (subseq_app_inv _ _ _ S) as (b1 & b2 & -> & S1).
  destruct (subseq_cons_inv _ _ _ S1) as (b3 & b4 & -> & S2).
  destruct (subseq_app_inv _ _ _ S2) as (b5 & b6 & -> & S3).
  destruct (subseq_cons_inv _ _ _ S3) as (b7 & b8 & -> & _).
  exists (b1 ++ b3), (b5 ++ b7), b8.
  repeat (rewrite <- app_assoc; simpl). reflexivity.
Qed.

Lemma remove_all_from_subseq match_len s : forall skip,
  subseq (remove_all_from match_len skip s) s.
Proof.
  induction s as [|c s IH]; simpl; intros skip; [constructor|].
  destruct skip as [|k]; [|constructor; apply IH].
  destruct (match_len (c :: s)) as [[|k]|]; constructor; apply IH.
Qed.

Lemma trim_start_upto s : upto s (trim_start s).
Proof.
  induction s as [|c s IH]; simpl; [apply upto_refl|].
  destruct (is_trim_space c); [apply upto_cons; exact IH|apply upto_refl].
Qed.

(** [trim] keeps a contiguous part of the string. *)
Lemma trim_middle s : exists before behind, s = before ++ trim s ++ behind.
Proof.
  unfold trim. destruct (trim_start_upto s) as [before E].
  destruct (trim_start_upto (rev (trim_start s))) as [w F].
  exists before, (rev w). rewrite <- rev_app_distr, <- F, rev_involutive. exact E.
Qed.

Lemma trim_subseq s : subseq (trim s) s.
Proof.
  destruct (trim_middle s) as (before & behind & E). rewrite E at 2.
  apply subseq_app_l. clear E. induction (trim s) as [|c t IH]; simpl.
  - induction behind; constructor; assumption.
  - apply subseq_keep. exact IH.
Qed.

Lemma cleanContent_braces text : has_braces (cleanContent text) -> has_braces text.
Proof.
  unfold cleanContent, remove_all. intros H.
  eapply has_braces_subseq; [apply remove_all_from_subseq|].
  eapply has_braces_subseq; [apply remove_all_from_subseq|].
  eapply has_braces_subseq; [apply trim_subseq|]. exact H.
Qed.

(** Without braces in the reply, the direct parse cannot succeed. *)
Lemma direct_needs_braces text log v :
  direct text = (log, Normal v) -> has_braces text.
Proof.
  intros D. destruct (direct_normal _ _ _ D) as (P & props & items & -> & _).
  apply cleanContent_braces. destruct (JSON_parse_object _ _ P) as (r & pre & mid & E).
  exists pre, mid, r. exact E.
Qed.

(** *** C3, C4, C5: the coercion of the reply *)

Lemma serve_reply upstream req text :
  model_reply upstream req text ->
  snd (serve upstream req)
  = match snd (direct text) with
    | Normal v => json_response 200 v
    | Throws _ => respond (fallback text)
    end.
Proof.
  intros [Hm O]. destruct (obtain upstream req) as [log r] eqn:E. simpl in O. subst r.
  destruct (direct text) as [l [v|e]] eqn:D; simpl.
  - rewrite (serve_coerced _ _ _ _ _ _ Hm E (coerce_direct _ _ _ D)). reflexivity.
  - rewrite (serve_coerced _ _ _ _ _ _ Hm E (coerce_fallback _ _ _ D)). reflexivity.
Qed.

(** The inner [try] throws when the cleaned text does not parse. *)
Lemma direct_throws_on_syntax_error text :
  JSON_parse (cleanContent text) = None -> exists e, direct text = ([], Throws e).
Proof.
  intros P. unfold direct, json_of. rewrite P. eexists. reflexivity.
Qed.

(** C3. When the model's reply is the code-fenced [{"ideas":[]}], the
    fence stripping leaves exactly the object text, the direct parse
    succeeds (the inner [try] completes with that object and logs its
    count of ideas, and nothing of the recovery runs), and the gateway
    answers 200 with body [{"ideas": []}]. *)
Theorem fenced_reply_round_trip upstream req :
  model_reply upstream req fenced_reply ->
  cleanContent fenced_reply = str "{" ++ quoted "ideas" ++ str ":[]}"
  /\ JSON_parse (cleanContent fenced_reply) = Some empty_ideas
  /\ direct fenced_reply
     = ([console_log [Text (str "Successfully generated 0 ideas")]], Normal empty_ideas)
  /\ fst (serve upstream req)
     = fst (obtain upstream req)
       ++ [console_log [Text (str "Successfully generated 0 ideas")]]
  /\ status (snd (serve upstream req)) = 200
  /\ body (snd (serve upstream req)) = Stringified (JObject [(str "ideas", JArray [])]).
Proof.
  intros [Hm O]. split; [reflexivity|]. split; [reflexivity|].
  assert (direct fenced_reply
          = ([console_log [Text (str "Successfully generated 0 ideas")]],
             Normal empty_ideas)) as D by reflexivity.
  split; [exact D|].
  destruct (obtain upstream req) as [log r] eqn:E. simpl in O. subst r.
  rewrite (serve_coerced _ _ _ _ _ _ Hm E (coerce_direct _ _ _ D)).
  split; [reflexivity|]. split; reflexivity.
Qed.


(** C5. When the inner [try] throws and recovery fails, the two errors
    differ: a reply without any brace-delimited block (where the inner
    [try] always throws) is answered 500 with "AI did not return valid
    JSON. Please try again."; a reply whose block, from the first opening
    to the last closing brace, does not parse is answered 500 with
    "Failed to parse AI response. Please try again.". *)
Theorem unrecoverable_reply_errors upstream req text :
  model_reply upstream req text ->
  (~ has_braces text ->
   status (snd (serve upstream req)) = 500
   /\ body (snd (serve upstream req))
      = Stringified
          (JObject [(str "error",
                     JString (str "AI did not return valid JSON. Please try again."))]))
  /\ (forall pre mid post e,
         snd (direct text) = Throws e ->
         text = pre ++ lbrace :: mid ++ rbrace :: post ->
         ~ In lbrace pre ->
         ~ In rbrace post ->
         JSON_parse (lbrace :: mid ++ [rbrace]) = None ->
         status (snd (serve upstream req)) = 500
         /\ body (snd (serve upstream req))
            = Stringified
                (JObject [(str "error",
                           JString (str "Failed to parse AI response. Please try again."))])).
Proof.
  intros MR. rewrite (serve_reply _ _ _ MR). split.
  - intros NB. destruct (direct text) as [l [v|e]] eqn:D.
    + elim NB. eapply direct_needs_braces. exact D.
    + simpl. unfold fallback. rewrite (jsonMatch_none _ NB). split; reflexivity.
  - intros pre mid post e D -> NL NR P. rewrite D. unfold fallback.
    rewrite (jsonMatch_block pre mid post NL NR), P. split; reflexivity.
Qed.

(** *** C1: the shapes of the response body *)


(** *** C10: what the fence stripping removes *)

Lemma strip_prefix_same p r : strip_prefix p (p ++ r) = Some r.
Proof.
  induction p as [|x p IH]; simpl; [reflexivity|]. rewrite N.eqb_refl. exact IH.
Qed.

Lemma contains_unfold p s :
  contains p s
  = match strip_prefix p s with
    | Some _ => true
    | None => match s with [] => false | _ :: r => contains p r end
    end.
Proof. destruct s; reflexivity. Qed.

Lemma contains_iff p s : contains p s = true <-> exists a b, s = a ++ p ++ b.
Proof.
  split.
  - induction s as [|c s IH]; simpl.
    + destruct (strip_prefix p []) as [r|] eqn:E; [|discriminate].
      intros _. apply strip_prefix_app in E. exists [], r. exact E.
    + destruct (strip_prefix p (c :: s)) as [r|] eqn:E.
      * intros _. apply strip_prefix_app in E. exists [], r. exact E.
      * intros H. destruct (IH H) as (a & b & ->). exists (c :: a), b. reflexivity.
  - intros (a & b & ->). induction a as [|c a IH]; simpl.
    + rewrite contains_unfold, strip_prefix_same. reflexivity.
    + destruct (strip_prefix p (c :: a ++ p ++ b)); [reflexivity|exact IH].
Qed.

Lemma contains_trim p s : contains p s = false -> contains p (trim s) = false.
Proof.
  intros H. destruct (contains p (trim s)) eqn:C; [|reflexivity].
  apply contains_iff in C. destruct C as (a & b & E).
  destruct (trim_middle s) as (before & behind & F). rewrite E in F.
  assert (contains p s = true) as K; [|congruence].
  apply contains_iff. exists (before ++ a), (b ++ behind).
  rewrite F, <- !app_assoc. reflexivity.
Qed.

Lemma remove_all_from_skip match_len k : forall s,
  remove_all_from match_len k s = remove_all_from match_len 0 (skipn k s).
Proof.
  induction k as [|k IH]; intros s; [reflexivity|].
  destruct s as [|c s]; [reflexivity|]. simpl. apply IH.
Qed.

Lemma fence_cases s :
  (fence s = None /\ strip_prefix [backtick; backtick; backtick] s = None)
  \/ exists k r, fence s = Some (S k) /\ s = backtick :: backtick :: backtick :: r.
Proof.
  unfold fence. change (str "```") with [backtick; backtick; backtick].
  destruct (strip_prefix [backtick; backtick; backtick] s) as [r|] eqn:E.
  - right. apply strip_prefix_app in E. subst s.
    destruct r as [|c r]; [exists 2%nat, []; auto|].
    destruct (c =? newline); eexists _, _; split; reflexivity.
  - left. auto.
Qed.

Lemma remove_copied c r :
  fence (c :: r) = None ->
  remove_all_from fence 0 (c :: r) = c :: remove_all_from fence 0 r.
Proof. intros F. simpl remove_all_from. rewrite F. reflexivity. Qed.

(** A code unit the scan copies is not followed, in the output, by two
    backticks that would complete a fence with it. *)
Lemma copied_head_no_fence c r :
  strip_prefix [backtick; backtick; backtick] (c :: r) = None ->
  strip_prefix [backtick; backtick; backtick] (c :: remove_all_from fence 0 r) = None.
Proof.
  intros S.
  assert (forall t, c :: r <> backtick :: backtick :: backtick :: t) as NS.
  { intros t E. rewrite E in S.
    change (backtick :: backtick :: backtick :: t)
      with ([backtick; backtick; backtick] ++ t) in S.
    rewrite strip_prefix_same in S. discriminate. }
  destruct (strip_prefix [backtick; backtick; backtick] (c :: remove_all_from fence 0 r))
    as [o|] eqn:O; [exfalso|reflexivity].
  apply strip_prefix_app in O. simpl in O. inversion O as [[Ec Er]]. clear O.
  destruct r as [|d r1]; [discriminate|].
  destruct (fence_cases (d :: r1)) as [(F & _)|(k & t & _ & E)].
  2:{ inversion E; subst. eapply NS. reflexivity. }
  rewrite (remove_copied _ _ F) in Er. inversion Er as [[Ed Er1]]. clear Er.
  destruct r1 as [|e r2]; [discriminate|].
  destruct (fence_cases (e :: r2)) as [(F2 & _)|(k & t & _ & E)].
  2:{ inversion E; subst. eapply NS. reflexivity. }
  rewrite (remove_copied _ _ F2) in Er1. inversion Er1 as [[Ee Er2]].
  eapply NS. rewrite Ec, Ed, Ee. reflexivity.
Qed.

Lemma remove_fence_clean n : forall s,
  (List.length s <= n)%nat ->
  contains [backtick; backtick; backtick] (remove_all_from fence 0 s) = false.
Proof.
  induction n as [|n IH]; intros s L.
  - destruct s; [reflexivity|simpl in L; lia].
  - destruct s as [|c r]; [reflexivity|]. simpl in L.
    destruct (fence_cases (c :: r)) as [(F & S)|(k & r' & F & E)].
    + simpl remove_all_from. rewrite F.
      rewrite contains_unfold, (copied_head_no_fence _ _ S). apply IH. lia.
    + simpl remove_all_from. rewrite F, remove_all_from_skip. apply IH.
      pose proof (length_skipn k r). lia.
Qed.

(** No triple backtick is left in the cleaned text. *)
Lemma cleanContent_no_fence text :
  contains (str "```") (cleanContent text) = false.
Proof.
  unfold cleanContent, remove_all. apply contains_trim.
  change (str "```") with [backtick; backtick; backtick].
  eapply remove_fence_clean. constructor.
Qed.

(** C10. The cleaned text never contains a triple backtick, wherever
    the reply had one, tagged with [json] or not. So a reply that is
    valid JSON with an [ideas] array and a triple backtick inside a
    string value is answered 200 with another object than the one the
    model emitted: with the [architecture] text emptied, both for an
    untagged sequence (the second replace) and for one followed by
    [json] (the first replace, which takes the tag along). *)
Theorem fence_stripping_alters_valid_json :
  (forall text, contains (str "```") (cleanContent text) = false)
  /\ JSON_parse fence_reply = Some (architecture_of "```")
  /\ has_ideas_array (architecture_of "```")
  /\ architecture_of "" <> architecture_of "```"
  /\ model_reply (answering 200 fence_reply) sample_request fence_reply
  /\ (forall upstream req,
         model_reply upstream req fence_reply ->
         status (snd (serve upstream req)) = 200
         /\ body (snd (serve upstream req)) = Stringified (architecture_of ""))
  /\ JSON_parse tagged_reply = Some (architecture_of "```json")
  /\ has_ideas_array (architecture_of "```json")
  /\ architecture_of "" <> architecture_of "```json"
  /\ remove_all json_fence tagged_reply
     = str "{" ++ quoted "ideas" ++ str ":[{" ++ quoted "architecture" ++ str ":"
       ++ [dquote; dquote] ++ str "}]}"
  /\ cleanContent tagged_reply = cleanContent fence_reply
  /\ model_reply (answering 200 tagged_reply) sample_request tagged_reply
  /\ (forall upstream req,
         model_reply upstream req tagged_reply ->
         status (snd (serve upstream req)) = 200
         /\ body (snd (serve upstream req)) = Stringified (architecture_of "")).
Proof.
  split; [exact cleanContent_no_fence|].
  split; [reflexivity|].
  split; [eexists _, _; split; reflexivity|].
  split; [discriminate|].
  split; [split; reflexivity|].
  split.
  { intros upstream req MR. rewrite (serve_reply _ _ _ MR).
    assert (snd (direct fence_reply) = Normal (architecture_of "")) as -> by reflexivity.
    split; reflexivity. }
  split; [reflexivity|].
  split; [eexists _, _; split; reflexivity|].
  split; [discriminate|].
  split; [reflexivity|].
  split; [reflexivity|].
  split; [split; reflexivity|].
  intros upstream req MR. rewrite (serve_reply _ _ _ MR).
  assert (snd (direct tagged_reply) = Normal (architecture_of "")) as -> by reflexivity.
  split; reflexivity.
Qed.

(** *** C8, C9: the controller *)

(** The [try] block, by what the gateway answers. *)
Lemma attempt_spec gateway formData :
  attempt gateway formData
  = let call := generate_call formData in
    match gateway call with
    | Rejects e => ([ui_fetch call], Throws e)
    | Responds r =>
        match JSON_parse (upstream_text r) with
        | None => ([ui_fetch call], Throws (engine_error (JsonSyntax (upstream_text r))))
        | Some d =>
            if ok r then
              match d with
              | JNull => ([ui_fetch call], Throws (engine_error (ReadOfNullish (str "ideas"))))
              | _ =>
                  if isArray (own "ideas" d)
                  then ([ui_fetch call; setIdeas (items_of (own "ideas" d));
                         toast_success success_text], Normal tt)
                  else ([ui_fetch call], Throws (ErrorObject invalid_format))
              end
            else
              match d with
              | JNull => ([ui_fetch call], Throws (engine_error (ReadOfNullish (str "error"))))
              | _ => ([ui_fetch call], Throws (supplied_or_generic d))
              end
        end
    end.
Proof.
  unfold attempt, json_of, supplied_or_generic. cbv zeta.
  destruct (gateway (generate_call formData)) as [r|e]; [|reflexivity].
  cbn [bind emit ret throw app].
  destruct (JSON_parse (upstream_text r)) as [d|]; [|destruct (ok r); reflexivity].
  destruct (ok r).
  - destruct d as [ | b | n | s | items | props ]; try reflexivity.
    simpl. destruct (obj_get (str "ideas") props) as [[ | b | n | s | items | props' ]|];
      try reflexivity.
    + destruct b; reflexivity.
    + simpl. destruct (rounds_to_zero n); reflexivity.
    + destruct s; reflexivity.
  - destruct d as [ | b | n | s | items | props ]; try reflexivity.
    simpl.
    destruct (interpolate (if truthy (obj_get (str "error") props)
                           then obj_get (str "error") props
                           else Some (JString generic_failure))); reflexivity.
Qed.

Lemma handleGenerate_spec gateway formData :
  handleGenerate gateway formData
  = (setIsLoading true :: setIdeas []
       :: fst (attempt gateway formData)
       ++ match snd (attempt gateway formData) with
          | Normal _ => []
          | Throws e => catch_effects e
          end
       ++ [setIsLoading false],
     Normal tt).
Proof.
  unfold handleGenerate. destruct (attempt gateway formData) as [l [[]|e]]; simpl.
  - reflexivity.
  - rewrite <- app_assoc. reflexivity.
Qed.

Lemma run_app st a b : run st (a ++ b) = run (run st a) b.
Proof. apply fold_left_app. Qed.

(** A failed attempt sets no state and throws. *)
Lemma attempt_failure gateway formData :
  Failure gateway formData ->
  exists e, attempt gateway formData = ([ui_fetch (generate_call formData)], Throws e).
Proof.
  intros F. rewrite attempt_spec. cbv zeta.
  destruct F as [e G|r G O|r G P|r d G P A]; rewrite G; [eauto| | |].
  - destruct (JSON_parse (upstream_text r)) as [d|]; [|eauto]. rewrite O.
    destruct d; eauto.
  - rewrite P. eauto.
  - rewrite P. destruct (ok r); destruct d; try rewrite A; eauto; discriminate.
Qed.

(** C8. Every run of [handleGenerate] starts by setting the loading
    flag and clearing the results, and ends by clearing the loading flag,
    whatever happens in between; when the generation fails (network
    error, status not ok, malformed body, no array under [ideas]) the
    results are left empty and exactly one notification is shown, an
    error; for a response that is not ok it carries the server's [error]
    string when there is one, and the generic text otherwise. *)
Theorem handleGenerate_contract gateway formData st :
  (exists rest,
      fst (handleGenerate gateway formData)
      = setIsLoading true :: setIdeas [] :: ui_fetch (generate_call formData) :: rest
        ++ [setIsLoading false])
  /\ snd (handleGenerate gateway formData) = Normal tt
  /\ isLoading (run st (fst (handleGenerate gateway formData))) = false
  /\ (Failure gateway formData ->
      ideas (run st (fst (handleGenerate gateway formData))) = []
      /\ exists message,
          toasts (fst (handleGenerate gateway formData)) = [toast_error message])
  /\ (forall r d,
         gateway (generate_call formData) = Responds r -> ok r = false ->
         JSON_parse (upstream_text r) = Some d ->
         (forall supplied,
             own "error" d = Some (JString supplied) -> supplied <> [] ->
             toasts (fst (handleGenerate gateway formData)) = [toast_error supplied])
         /\ (d <> JNull -> truthy (own "error" d) = false ->
             toasts (fst (handleGenerate gateway formData))
             = [toast_error (str "Failed to generate ideas")])).
Proof.
  rewrite handleGenerate_spec. simpl fst. simpl snd.
  split; [|split; [reflexivity|split; [|split]]].
  - rewrite attempt_spec. cbv zeta.
    destruct (gateway (generate_call formData)) as [r|e]; [|eexists; reflexivity].
    destruct (JSON_parse (upstream_text r)) as [d|]; [|eexists; reflexivity].
    destruct (ok r); destruct d; try destruct (isArray _); eexists; reflexivity.
  - change (setIsLoading true :: setIdeas [] :: ?l)
      with ([setIsLoading true; setIdeas []] ++ l).
    rewrite !app_assoc, run_app. reflexivity.
  - intros F. destruct (attempt_failure _ _ F) as [e ->]. simpl. split; [reflexivity|].
    eexists. reflexivity.
  - intros r d G O P. rewrite attempt_spec. cbv zeta. rewrite G, P, O. split.
    + intros supplied E NE. destruct d; try discriminate. simpl in E.
      unfold supplied_or_generic. simpl own. rewrite E.
      destruct supplied; [congruence|]. reflexivity.
    + intros NN T. destruct d; try congruence;
        unfold supplied_or_generic; rewrite T; reflexivity.
Qed.

(** C9. A 200 answer whose body has an array under [ideas] is a success
    whatever the array's length: the one notification is the success
    text "3 amazing ideas generated!" and the results become that array.
    When the array is empty the results stay empty, no results section
    is rendered and the empty state is. *)
Theorem empty_ideas_treated_as_success gateway formData st r d items :
  gateway (generate_call formData) = Responds r ->
  upstream_status r = 200 ->
  JSON_parse (upstream_text r) = Some d ->
  own "ideas" d = Some (JArray items) ->
  toasts (fst (handleGenerate gateway formData))
  = [toast_success (str "3 amazing ideas generated!")]
  /\ ideas (run st (fst (handleGenerate gateway formData))) = items
  /\ isLoading (run st (fst (handleGenerate gateway formData))) = false
  /\ (items = [] ->
      results_section (Index (run st (fst (handleGenerate gateway formData)))) = None
      /\ empty_state (Index (run st (fst (handleGenerate gateway formData)))) = true).
Proof.
  intros G S P I.
  assert (attempt gateway formData
          = ([ui_fetch (generate_call formData); setIdeas items; toast_success success_text],
             Normal tt)) as A.
  { rewrite attempt_spec. cbv zeta. rewrite G, P. unfold ok. rewrite S. simpl.
    destruct d; try discriminate. rewrite I. reflexivity. }
  rewrite handleGenerate_spec, A. simpl.
  split; [reflexivity|]. split; [reflexivity|]. split; [reflexivity|].
  intros ->. split; reflexivity.
Qed.


(** ** Further properties of the gateway *)

(** *** The brace match, characterised *)

Lemma through_last_rbrace_in s :
  through_last_rbrace s = None -> ~ In rbrace s.
Proof.
  induction s as [|c s IH]; simpl; [tauto|].
  destruct (through_last_rbrace s); [discriminate|].
  destruct (c =? rbrace) eqn:E; [discriminate|].
  apply N.eqb_neq in E. intros _ [C|C]; [congruence|]. apply IH; [reflexivity|exact C].
Qed.

Lemma jsonMatch_needs_rbrace s : ~ In rbrace s -> jsonMatch s = None.
Proof.
  intros N. apply jsonMatch_none. intros (pre & mid & post & ->).
  apply N. apply in_or_app. right. right. apply in_or_app. right. left. reflexivity.
Qed.

Lemma jsonMatch_leftmost s block :
  jsonMatch s = Some block ->
  exists pre mid post,
    s = pre ++ lbrace :: mid ++ rbrace :: post
    /\ block = lbrace :: mid ++ [rbrace]
    /\ ~ In lbrace pre /\ ~ In rbrace post.
Proof.
  induction s as [|c s IH]; simpl; [discriminate|].
  destruct (c =? lbrace) eqn:E.
  - apply N.eqb_eq in E. subst c.
    destruct (through_last_rbrace s) as [m|] eqn:T.
    + intros H. inversion H; subst.
      destruct (through_last_rbrace_some _ _ T) as (mid & post & -> & -> & N).
      exists [], mid, post. simpl. auto.
    + rewrite (jsonMatch_needs_rbrace _ (through_last_rbrace_in _ T)). discriminate.
  - apply N.eqb_neq in E. intros H.
    destruct (IH H) as (pre & mid & post & -> & -> & NL & NR).
    exists (c :: pre), mid, post. repeat split; [|exact NR].
    intros [C|C]; [congruence|exact (NL C)].
Qed.

Lemma jsonMatch_some_of_braces s : has_braces s -> exists block, jsonMatch s = Some block.
Proof.
  intros (pre & mid & post & ->).
  assert (forall x, In rbrace x -> exists m, through_last_rbrace x = Some m) as K.
  { intros x I. destruct (through_last_rbrace x) as [m|] eqn:T; [eauto|].
    elim (through_last_rbrace_in _ T I). }
  induction pre as [|c pre IH]; simpl.
  - destruct (K (mid ++ rbrace :: post)) as [m ->]; [|eauto].
    apply in_or_app. right. left. reflexivity.
  - destruct (c =? lbrace); [|exact IH].
    destruct (K (pre ++ lbrace :: mid ++ rbrace :: post)) as [m ->]; [|eauto].
    apply in_or_app. right. right. apply in_or_app. right. left. reflexivity.
Qed.

(** X1. [generatedContent.match(/\{[\s\S]*\}/)] finds a block exactly
    when the text has an opening brace with a closing brace behind it,
    and the block is then the text from its first opening brace through
    its last closing brace; matching the block again gives the block. *)
Theorem jsonMatch_first_to_last s :
  (forall block,
      jsonMatch s = Some block <->
      exists pre mid post,
        s = pre ++ lbrace :: mid ++ rbrace :: post
        /\ block = lbrace :: mid ++ [rbrace]
        /\ ~ In lbrace pre /\ ~ In rbrace post)
  /\ (jsonMatch s = None <-> ~ has_braces s)
  /\ (forall block, jsonMatch s = Some block -> jsonMatch block = Some block).
Proof.
  split; [|split].
  - intros block. split; [apply jsonMatch_leftmost|].
    intros (pre & mid & post & -> & -> & NL & NR). apply jsonMatch_block; assumption.
  - split; [|apply jsonMatch_none].
    intros J (pre & mid & post & E).
    destruct (jsonMatch_some_of_braces s) as [b B]; [exists pre, mid, post; exact E|].
    congruence.
  - intros block J.
    destruct (jsonMatch_leftmost _ _ J) as (pre & mid & post & _ & -> & _ & _).
    apply (jsonMatch_block [] mid []); simpl; tauto.
Qed.


(** *** The cleaned text *)

Lemma subseq_trans a b c : subseq a b -> subseq b c -> subseq a c.
Proof.
  intros AB BC. revert a AB.
  induction BC as [|x b c BC IH|x b c BC IH]; intros a AB.
  - exact AB.
  - apply subseq_skip. apply IH. exact AB.
  - inversion AB; subst.
    + apply subseq_skip. apply IH. assumption.
    + apply subseq_keep. apply IH. assumption.
Qed.

Lemma cleanContent_subseq text : subseq (cleanContent text) text.
Proof.
  unfold cleanContent, remove_all.
  eapply subseq_trans; [apply trim_subseq|].
  eapply subseq_trans; apply remove_all_from_subseq.
Qed.

Lemma trim_start_head s :
  match trim_start s with
  | [] => True
  | c :: _ => is_trim_space c = false
  end.
Proof.
  induction s as [|c s IH]; simpl; [exact I|].
  destruct (is_trim_space c) eqn:E; [exact IH|exact E].
Qed.

Lemma trim_start_fixed c s : is_trim_space c = false -> trim_start (c :: s) = c :: s.
Proof. intros E. simpl. rewrite E. reflexivity. Qed.

Lemma trim_start_idem s : trim_start (trim_start s) = trim_start s.
Proof.
  pose proof (trim_start_head s) as H. destruct (trim_start s) as [|c r]; [reflexivity|].
  apply trim_start_fixed. exact H.
Qed.

Lemma trim_start_snoc c x :
  is_trim_space c = false -> trim_start (x ++ [c]) = trim_start x ++ [c].
Proof.
  intros E. induction x as [|d x IH]; simpl; [rewrite E; reflexivity|].
  destruct (is_trim_space d); [exact IH|reflexivity].
Qed.

Lemma trim_trimmed s : trimmed (trim s).
Proof.
  unfold trimmed, trim. rewrite rev_involutive, trim_start_idem. split; [|reflexivity].
  pose proof (trim_start_head s) as H. destruct (trim_start s) as [|c a]; [reflexivity|].
  change (rev (c :: a)) with (rev a ++ [c]).
  rewrite (trim_start_snoc _ _ H), rev_app_distr.
  change (trim_start (c :: rev (trim_start (rev a))) = c :: rev (trim_start (rev a))).
  apply trim_start_fixed. exact H.
Qed.

Lemma trimmed_trim t : trimmed t -> trim t = t.
Proof.
  intros [A B]. unfold trim. rewrite A, B. apply rev_involutive.
Qed.

Lemma trim_start_space c s : trim_start (c :: s) = c :: s -> is_trim_space c = false.
Proof.
  simpl. destruct (is_trim_space c); [|reflexivity]. intros E.
  pose proof (upto_length _ _ (trim_start_upto s)) as L. rewrite E in L. simpl in L. lia.
Qed.

Lemma trimmed_ends t :
  trimmed t ->
  (forall c r, t = c :: r -> is_trim_space c = false)
  /\ (forall c r, t = r ++ [c] -> is_trim_space c = false).
Proof.
  intros [A B]. split.
  - intros c r ->. eapply trim_start_space. exact A.
  - intros c r ->. rewrite rev_app_distr in B. simpl in B.
    eapply trim_start_space. exact B.
Qed.

Lemma strip_prefix_longer p q t :
  strip_prefix p t = None -> strip_prefix (p ++ q) t = None.
Proof.
  revert t. induction p as [|x p IH]; simpl; intros t; [discriminate|].
  destruct t as [|y t]; [reflexivity|]. destruct (x =? y); [apply IH|reflexivity].
Qed.

(** Where no suffix starts with a match, nothing is removed. *)
Lemma remove_all_nothing match_len pattern s :
  (forall t, strip_prefix pattern t = None -> match_len t = None) ->
  contains pattern s = false ->
  remove_all match_len s = s.
Proof.
  intros M. unfold remove_all. induction s as [|c s IH]; [reflexivity|].
  rewrite contains_unfold.
  destruct (strip_prefix pattern (c :: s)) eqn:P; [discriminate|].
  intros C. simpl. rewrite (M _ P), (IH C). reflexivity.
Qed.

Lemma fence_needs_backticks t :
  strip_prefix (str "```") t = None -> fence t = None.
Proof. unfold fence. intros ->. reflexivity. Qed.

Lemma json_fence_needs_backticks t :
  strip_prefix (str "```") t = None -> json_fence t = None.
Proof.
  intros P. unfold json_fence.
  change (str "```json") with (str "```" ++ str "json").
  rewrite (strip_prefix_longer _ _ _ P). reflexivity.
Qed.

Lemma cleanContent_without_fence text :
  contains (str "```") text = false -> cleanContent text = trim text.
Proof.
  intros C. unfold cleanContent.
  rewrite (remove_all_nothing json_fence _ _ json_fence_needs_backticks C).
  rewrite (remove_all_nothing fence _ _ fence_needs_backticks C). reflexivity.
Qed.

(** X2. The cleaning only removes code units, and what it leaves has no
    white space at either end. *)
Theorem cleanContent_removes_and_trims text :
  subseq (cleanContent text) text
  /\ (forall c r, cleanContent text = c :: r -> is_trim_space c = false)
  /\ (forall c r, cleanContent text = r ++ [c] -> is_trim_space c = false).
Proof.
  split; [apply cleanContent_subseq|].
  apply trimmed_ends. unfold cleanContent. apply trim_trimmed.
Qed.

(** X3. On a text without a triple backtick the cleaning is [trim]; and
    cleaning twice is cleaning once. *)
Theorem cleanContent_idempotent text :
  (contains (str "```") text = false -> cleanContent text = trim text)
  /\ cleanContent (cleanContent text) = cleanContent text.
Proof.
  split; [apply cleanContent_without_fence|].
  rewrite (cleanContent_without_fence _ (cleanContent_no_fence text)).
  apply trimmed_trim. unfold cleanContent. apply trim_trimmed.
Qed.


(** *** Replies that are the text of a JSON object *)

Lemma trim_start_split s :
  exists ws, s = ws ++ trim_start s /\ Forall (fun c => is_trim_space c = true) ws.
Proof.
  induction s as [|c s (ws & E & F)]; simpl; [exists []; auto|].
  destruct (is_trim_space c) eqn:S.
  - exists (c :: ws). split; [simpl; f_equal; exact E|constructor; assumption].
  - exists []. auto.
Qed.

Lemma trim_split s :
  exists before behind,
    s = before ++ trim s ++ behind
    /\ Forall (fun c => is_trim_space c = true) before
    /\ Forall (fun c => is_trim_space c = true) behind.
Proof.
  unfold trim. destruct (trim_start_split s) as (before & E & F).
  destruct (trim_start_split (rev (trim_start s))) as (w & E' & F').
  exists before, (rev w). split; [|split; [exact F|]].
  - rewrite <- rev_app_distr, <- E', rev_involutive. exact E.
  - apply Forall_rev. exact F'.
Qed.

Lemma skip_ws_split s :
  exists ws, s = ws ++ skip_ws s /\ Forall (fun c => is_ws c = true) ws.
Proof.
  induction s as [|c s (ws & E & F)]; simpl; [exists []; auto|].
  destruct (is_ws c) eqn:S.
  - exists (c :: ws). split; [simpl; f_equal; exact E|constructor; assumption].
  - exists []. auto.
Qed.

Lemma skip_ws_nil s : skip_ws s = [] -> Forall (fun c => is_ws c = true) s.
Proof.
  intros E. destruct (skip_ws_split s) as (ws & S & F). rewrite E, app_nil_r in S.
  subst. exact F.
Qed.

Lemma is_ws_trim_space c : is_ws c = true -> is_trim_space c = true.
Proof.
  intros H. unfold is_ws in H.
  repeat (apply orb_true_iff in H; destruct H as [H|H]);
    apply N.eqb_eq in H; subst c; reflexivity.
Qed.

Lemma spaces_without c ws :
  is_trim_space c = false -> Forall (fun c => is_trim_space c = true) ws -> ~ In c ws.
Proof.
  intros E F I. rewrite Forall_forall in F. specialize (F _ I). congruence.
Qed.

(** An object is read from an opening brace, after white space, through
    the closing brace just before the rest. *)
Lemma value_object_span fuel s v r :
  value fuel s = Parsed v r -> is_object v ->
  exists mid, skip_ws s = lbrace :: mid ++ rbrace :: r.
Proof.
  destruct fuel as [|fuel]; [discriminate|]. simpl.
  destruct (skip_ws s) as [|c r0]; [discriminate|].
  destruct (c =? 123) eqn:C.
  - apply N.eqb_eq in C. subst c.
    destruct (skip_ws_split r0) as (ws & E & _).
    destruct (skip_ws r0) as [|c' r']; [discriminate|].
    destruct (c' =? 125) eqn:C'.
    + apply N.eqb_eq in C'. subst c'. intros H _.
      exists ws. rewrite E. inversion H. reflexivity.
    + intros H _. apply (proj2 (proj2 (parse_after _))) in H.
      destruct H as ([mid M] & _). exists (ws ++ mid).
      rewrite E, M, <- app_assoc. reflexivity.
  - destruct (c =? 91).
    + destruct (skip_ws r0) as [|c' r']; [discriminate|].
      destruct (c' =? 93).
      * intros H [p O]. inversion H; subst. discriminate.
      * intros H O. apply (proj1 (proj2 (parse_after _))) in H. tauto.
    + intros H O. apply scalar_after in H. tauto.
Qed.

(** A text without white space at its ends that parses to an object
    runs from an opening to a closing brace. *)
Lemma trimmed_object_text t v :
  trimmed t -> JSON_parse t = Some v -> is_object v ->
  exists mid, t = lbrace :: mid ++ [rbrace].
Proof.
  intros T P O. destruct (trimmed_ends _ T) as (Head & Last).
  unfold JSON_parse in P.
  destruct (value (fuel_for t) t) as [w r| |] eqn:V; try discriminate.
  destruct (skip_ws r) eqn:R; [|discriminate]. inversion P; subst w.
  destruct (value_object_span _ _ _ _ V O) as (mid & S).
  destruct (skip_ws_split t) as (ws & E & F). rewrite S in E.
  destruct ws as [|w ws].
  2:{ exfalso. apply Forall_inv in F. apply is_ws_trim_space in F. simpl in E.
      rewrite (Head _ _ E) in F. discriminate. }
  simpl in E. exists mid. rewrite E. f_equal. f_equal. f_equal.
  destruct r as [|x r1]; [reflexivity|exfalso].
  destruct (@exists_last _ (x :: r1)) as (r' & z & Z); [discriminate|].
  pose proof (skip_ws_nil _ R) as W. rewrite Z in W, E.
  apply Forall_app in W. destruct W as (_ & W). apply Forall_inv in W.
  apply is_ws_trim_space in W.
  rewrite (Last z (lbrace :: mid ++ rbrace :: r')) in W; [discriminate|].
  rewrite E. simpl. f_equal. rewrite <- app_assoc. reflexivity.
Qed.

Lemma direct_object text props :
  JSON_parse (cleanContent text) = Some (JObject props) ->
  snd (direct text)
  = if isArray (obj_get (str "ideas") props)
    then Normal (JObject props)
    else Throws (ErrorObject (str "Invalid response structure: missing ideas array")).
Proof.
  intros P. unfold direct, json_of. rewrite P.
  unfold member, bind, ret, throw, emit. cbv beta iota.
  destruct (obj_get (str "ideas") props) as [[ | b | n | s | items | props' ]|];
    try reflexivity.
  - destruct b; reflexivity.
  - simpl. destruct (rounds_to_zero n); reflexivity.
  - destruct s; reflexivity.
Qed.

(** X4. A reply without a triple backtick that is, white space at its
    ends aside, the text of a JSON object is answered 200 with exactly
    that object, whether or not the object has an [ideas] array: what
    the structure check rejects, the brace match recovers. *)
Theorem object_reply_relayed upstream req text v :
  model_reply upstream req text ->
  contains (str "```") text = false ->
  JSON_parse (trim text) = Some v ->
  is_object v ->
  status (snd (serve upstream req)) = 200
  /\ body (snd (serve upstream req)) = Stringified v.
Proof.
  intros MR NF P O. rewrite (serve_reply _ _ _ MR).
  pose proof (cleanContent_without_fence _ NF) as C.
  destruct O as [props ->].
  rewrite (direct_object text props) by (rewrite C; exact P).
  destruct (isArray (obj_get (str "ideas") props)); [split; reflexivity|].
  destruct (trimmed_object_text _ _ (trim_trimmed text) P) as (mid & T);
    [eexists; reflexivity|].
  destruct (trim_split text) as (before & behind & E & FB & FA).
  assert (jsonMatch text = Some (trim text)) as J.
  { rewrite E at 1. rewrite T. simpl. rewrite <- app_assoc.
    apply (jsonMatch_block before mid behind);
      apply spaces_without; [reflexivity|exact FB|reflexivity|exact FA]. }
  unfold fallback. rewrite J, P. split; reflexivity.
Qed.


(** *** Requests the handler cannot use, and its outbound calls *)

Lemma serve_validated upstream req received :
  JsString.eqb (method req) (str "OPTIONS") = false ->
  JSON_parse (payload req) = Some received ->
  received <> JNull ->
  missing_required (fields received) = false ->
  obtain upstream req
  = (params_log (fields received) :: fst (prompted upstream (fields received)),
     snd (prompted upstream (fields received))).
Proof.
  intros Hm P NN Mi. rewrite obtain_spec, P.
  destruct received; try congruence; rewrite Mi; reflexivity.
Qed.

Lemma serve_relay_throws upstream req received e :
  JsString.eqb (method req) (str "OPTIONS") = false ->
  JSON_parse (payload req) = Some received ->
  received <> JNull ->
  missing_required (fields received) = false ->
  snd (prompted upstream (fields received)) = Throws e ->
  snd (serve upstream req) = caught_response e.
Proof.
  intros Hm P NN Mi R.
  pose proof (serve_validated upstream req received Hm P NN Mi) as O. rewrite R in O.
  rewrite (serve_caught _ _ _ _ Hm O). reflexivity.
Qed.

Lemma outbound_quiet log : Forall quiet log -> outbound log = [].
Proof.
  unfold outbound. induction 1 as [|e log Q _ IH]; [reflexivity|]. simpl.
  destruct e; simpl; [exact IH|exact IH|elim Q].
Qed.

Lemma outbound_app a b : outbound (a ++ b) = outbound a ++ outbound b.
Proof. apply filter_app. Qed.

(** X5. A request body that is not JSON, or is [null], is answered 500
    with the engine's message; a JSON body that is not an object (an
    array, a string, a number, a boolean) is answered 400 as missing all
    fields; in none of these cases is an outbound call sent. *)
Theorem unusable_request_bodies upstream req :
  JsString.eqb (method req) (str "OPTIONS") = false ->
  (JSON_parse (payload req) = None ->
   snd (serve upstream req)
   = json_response 500 (error_body (engine_message (JsonSyntax (payload req))))
   /\ outbound (fst (serve upstream req)) = [])
  /\ (JSON_parse (payload req) = Some JNull ->
      snd (serve upstream req)
      = json_response 500 (error_body (engine_message DestructureNull))
      /\ outbound (fst (serve upstream req)) = [])
  /\ (forall received,
         JSON_parse (payload req) = Some received ->
         received <> JNull -> ~ is_object received ->
         snd (serve upstream req)
         = json_response 400 (error_body missing_fields_message)
         /\ outbound (fst (serve upstream req)) = []).
Proof.
  intros Hm. split; [|split].
  - intros P.
    assert (obtain upstream req = ([], Throws (engine_error (JsonSyntax (payload req)))))
      as O by (rewrite obtain_spec, P; reflexivity).
    rewrite (serve_caught _ _ _ _ Hm O). split; reflexivity.
  - intros P.
    assert (obtain upstream req = ([], Throws (engine_error DestructureNull)))
      as O by (rewrite obtain_spec, P; reflexivity).
    rewrite (serve_caught _ _ _ _ Hm O). split; reflexivity.
  - intros received P NN NO.
    assert (obtain upstream req
            = ([params_log (fields received)], Normal (inl missing_fields_response))) as O.
    { rewrite obtain_spec, P.
      destruct received; try congruence; try reflexivity.
      elim NO. eexists. reflexivity. }
    rewrite (serve_early _ _ _ _ Hm O). split; reflexivity.
Qed.

(** X6. The handler sends at most one outbound call per request.  For
    a request that passes validation it sends exactly one, the
    completion call with the prompt, when the prompt is built, and
    whatever the endpoint answers no second call follows; when a value
    of the template has no string (an object with an own [toString]
    property, such as [{"toString":1}] for [domain]) the template throws
    before the call: nothing is sent and the answer is 500 with the
    [TypeError]'s message.  Some bodies that pass validation are of that
    kind. *)
Theorem at_most_one_outbound_call upstream req :
  (List.length (outbound (fst (serve upstream req))) <= 1)%nat
  /\ (forall received,
         JsString.eqb (method req) (str "OPTIONS") = false ->
         JSON_parse (payload req) = Some received ->
         received <> JNull ->
         missing_required (fields received) = false ->
         match userPrompt (fields received) with
         | Some prompt =>
             outbound (fst (serve upstream req)) = [fetch_sent (completion_call prompt)]
         | None =>
             outbound (fst (serve upstream req)) = []
             /\ snd (serve upstream req)
                = json_response 500 (error_body (engine_message NotPrimitive))
         end)
  /\ JSON_parse unprintable_payload = Some unprintable_form
  /\ missing_required (fields unprintable_form) = false
  /\ userPrompt (fields unprintable_form) = None.
Proof.
  assert (forall received,
             JsString.eqb (method req) (str "OPTIONS") = false ->
             JSON_parse (payload req) = Some received ->
             received <> JNull ->
             missing_required (fields received) = false ->
             match userPrompt (fields received) with
             | Some prompt =>
                 outbound (fst (serve upstream req))
                 = [fetch_sent (completion_call prompt)]
             | None =>
                 outbound (fst (serve upstream req)) = []
                 /\ snd (serve upstream req)
                    = json_response 500 (error_body (engine_message NotPrimitive))
             end) as One.
  { intros received Hm P NN Mi.
    pose proof (serve_validated upstream _ _ Hm P NN Mi) as O.
    pose proof (prompted_spec upstream (fields received)) as S.
    destruct (userPrompt (fields received)) as [prompt|] eqn:UP.
    - destruct (serve_log upstream req Hm) as (tail & -> & Q).
      rewrite O. simpl fst.
      destruct S as (rest & -> & QR & _).
      change (params_log (fields received) :: fetch_sent (completion_call prompt) :: rest)
        with ([params_log (fields received)]
                ++ [fetch_sent (completion_call prompt)] ++ rest).
      rewrite !outbound_app, (outbound_quiet _ Q), (outbound_quiet _ QR). reflexivity.
    - rewrite S in O. simpl in O. rewrite (serve_caught _ _ _ _ Hm O).
      split; reflexivity. }
  split; [|split; [exact One|]].
  2:{ split; [vm_compute; reflexivity|]. split; reflexivity. }
  destruct (JsString.eqb (method req) (str "OPTIONS")) eqn:Hm.
  { rewrite serve_preflight by exact Hm. simpl. lia. }
  destruct (JSON_parse (payload req)) as [received|] eqn:P.
  2:{ destruct (serve_log upstream req Hm) as (tail & -> & Q).
      rewrite obtain_spec, P. simpl. rewrite (outbound_quiet _ Q). simpl. lia. }
  assert (received <> JNull -> missing_required (fields received) = false ->
          (List.length (outbound (fst (serve upstream req))) <= 1)%nat) as Len.
  { intros NN Mi. specialize (One _ eq_refl eq_refl NN Mi).
    destruct (userPrompt (fields received)).
    - rewrite One. simpl. lia.
    - destruct One as [-> _]. simpl. lia. }
  destruct (missing_required (fields received)) eqn:Mi;
    destruct received;
    try (apply Len; [discriminate|reflexivity]);
    destruct (serve_log upstream req Hm) as (tail & -> & Q);
    rewrite obtain_spec, P; try rewrite Mi; simpl;
    rewrite (outbound_quiet _ Q); simpl; lia.
Qed.


(** *** What the completion endpoint's answer leads to *)

Lemma relay_answered upstream prompt u :
  upstream (completion_call prompt) = Responds u -> ok u = true ->
  snd (relay upstream prompt)
  = match snd (reply_text u) with
    | Normal generatedContent => Normal (inr generatedContent)
    | Throws e => Throws e
    end.
Proof.
  intros U O. unfold relay, fetch. rewrite U. cbn [bind emit ret app]. rewrite O.
  cbn [negb]. destruct (reply_text u) as [l [t|e]]; reflexivity.
Qed.

(** A reply is only read out of a body that is JSON. *)
Lemma reply_text_normal u text :
  snd (reply_text u) = Normal text ->
  exists data, JSON_parse (upstream_text u) = Some data.
Proof.
  unfold reply_text, json_of.
  destruct (JSON_parse (upstream_text u)) as [data|]; [eauto|discriminate].
Qed.

(** X7. When the call the gateway sent is rejected (a network failure),
    the answer is 500 with the thrown error's message, or with "Unknown
    error occurred" when what was thrown is no [Error]. *)
Theorem rejected_call_answered_500 upstream req call e :
  In (fetch_sent call) (fst (serve upstream req)) ->
  upstream call = Rejects e ->
  status (snd (serve upstream req)) = 500
  /\ body (snd (serve upstream req))
     = Stringified
         (JObject [(str "error",
                    JString match e with
                            | ErrorObject message => message
                            | NonError => str "Unknown error occurred"
                            end)]).
Proof.
  intros C U. apply serve_fetches in C.
  destruct C as (Hm & received & prompt & P & NN & Mi & UP & ->).
  pose proof (prompted_spec upstream (fields received)) as R. rewrite UP in R.
  destruct R as (rest & _ & _ & R). rewrite U in R.
  rewrite (serve_relay_throws _ _ _ _ Hm P NN Mi R). split; reflexivity.
Qed.

(** X8. A request that is not a preflight is answered 200 only after an
    outbound call was sent and answered with a status from 200 to 299
    and a body that is JSON. *)
Theorem success_needs_completion upstream req :
  JsString.eqb (method req) (str "OPTIONS") = false ->
  status (snd (serve upstream req)) = 200 ->
  exists call u data,
    In (fetch_sent call) (fst (serve upstream req))
    /\ upstream call = Responds u
    /\ ok u = true
    /\ JSON_parse (upstream_text u) = Some data.
Proof.
  intros Hm S.
  assert (exists text, model_reply upstream req text) as (text & _ & O).
  { destruct (serve_outcome upstream req Hm); try discriminate; eauto. }
  revert O. rewrite obtain_spec.
  destruct (JSON_parse (payload req)) as [received|] eqn:P; [|discriminate].
  assert (received <> JNull ->
          snd (if missing_required (fields received)
               then ([params_log (fields received)], Normal (inl missing_fields_response))
               else (params_log (fields received) :: fst (prompted upstream (fields received)),
                     snd (prompted upstream (fields received))))
          = Normal (inr text) ->
          exists call u data,
            In (fetch_sent call) (fst (serve upstream req))
            /\ upstream call = Responds u /\ ok u = true
            /\ JSON_parse (upstream_text u) = Some data) as K.
  { intros NN. destruct (missing_required (fields received)) eqn:Mi; [discriminate|].
    simpl. intros R.
    pose proof (prompted_spec upstream (fields received)) as RS.
    destruct (userPrompt (fields received)) as [prompt|] eqn:UP;
      [|rewrite RS in R; discriminate].
    destruct RS as (rest & _ & _ & RS).
    destruct (upstream (completion_call prompt)) as [u|e] eqn:U;
      [|rewrite RS in R; discriminate].
    destruct (ok u) eqn:Ok; [|rewrite RS in R; discriminate].
    rewrite (prompted_built _ _ _ UP), (relay_answered _ _ _ U Ok) in R.
    destruct (snd (reply_text u)) as [t|e] eqn:T; [|discriminate].
    destruct (reply_text_normal _ _ T) as (data & D).
    exists (completion_call prompt), u, data.
    split; [|auto]. apply serve_fetches. split; [exact Hm|].
    exists received, prompt. auto. }
  destruct received; try (apply K; discriminate). discriminate.
Qed.

(** X9. When the call is answered with a status from 200 to 299 but no
    usable completion, the answer is 500 with the engine's message: for
    a body that is not JSON, for an empty [choices] array, and for a
    first choice whose message has [content: null]. *)
Theorem unusable_completion_answered_500 upstream req call u :
  In (fetch_sent call) (fst (serve upstream req)) ->
  upstream call = Responds u ->
  ok u = true ->
  (JSON_parse (upstream_text u) = None ->
   snd (serve upstream req)
   = json_response 500 (error_body (engine_message (JsonSyntax (upstream_text u)))))
  /\ (forall data,
         JSON_parse (upstream_text u) = Some data ->
         own "choices" data = Some (JArray []) ->
         snd (serve upstream req)
         = json_response 500 (error_body (engine_message (ReadOfNullish (str "message")))))
  /\ (forall data choice rest message,
         JSON_parse (upstream_text u) = Some data ->
         own "choices" data = Some (JArray (choice :: rest)) ->
         own "message" choice = Some message ->
         own "content" message = Some JNull ->
         snd (serve upstream req)
         = json_response 500
             (error_body (engine_message (ReadOfNullish (str "substring"))))).
Proof.
  intros C U Ok. apply serve_fetches in C.
  destruct C as (Hm & received & prompt & P & NN & Mi & UP & ->).
  pose proof (relay_answered _ _ _ U Ok) as R.
  rewrite <- (prompted_built _ _ _ UP) in R.
  assert (forall e, snd (reply_text u) = Throws e ->
                    snd (serve upstream req) = caught_response e) as K.
  { intros e T. rewrite T in R. apply (serve_relay_throws _ _ _ _ Hm P NN Mi R). }
  split; [|split].
  - intros D. rewrite (K (engine_error (JsonSyntax (upstream_text u)))).
    + reflexivity.
    + unfold reply_text, json_of. rewrite D. reflexivity.
  - intros data D Ch. rewrite (K (engine_error (ReadOfNullish (str "message")))).
    + reflexivity.
    + unfold reply_text, json_of. rewrite D.
      destruct data; try discriminate. simpl in Ch. simpl. rewrite Ch. reflexivity.
  - intros data choice rest message D Ch Me Co.
    rewrite (K (engine_error (ReadOfNullish (str "substring")))).
    + reflexivity.
    + unfold reply_text, json_of. rewrite D.
      destruct data; try discriminate. simpl in Ch.
      destruct choice; try discriminate. simpl in Me.
      destruct message; try discriminate. simpl in Co.
      simpl. rewrite Ch. simpl. rewrite Me. simpl. rewrite Co. reflexivity.
Qed.


(** *** The prompt *)

Lemma contains_behind p a s : contains p s = true -> contains p (a ++ s) = true.
Proof.
  intros H. apply contains_iff in H. destruct H as (x & y & ->).
  apply contains_iff. exists (a ++ x), y. rewrite <- app_assoc. reflexivity.
Qed.

Lemma contains_front p b : contains p (p ++ b) = true.
Proof. apply contains_iff. exists [], b. reflexivity. Qed.

(** X10. The user prompt names placeholders for the optional fields:
    when [skills] is absent or falsy it has the line "Skills: Not
    specified", when [constraints] is, the line "Constraints: None
    specified"; a truthy value is interpolated instead. *)
Theorem prompt_placeholders p prompt :
  userPrompt p = Some prompt ->
  (truthy (skills p) = false ->
   contains (line (str "Skills: Not specified")) prompt = true)
  /\ (truthy (constraints p) = false ->
      contains (line (str "Constraints: None specified")) prompt = true)
  /\ (truthy (skills p) = true ->
      exists text,
        interpolate (skills p) = Some text
        /\ contains (line (str "Skills: " ++ text)) prompt = true)
  /\ (truthy (constraints p) = true ->
      exists text,
        interpolate (constraints p) = Some text
        /\ contains (line (str "Constraints: " ++ text)) prompt = true).
Proof.
  unfold userPrompt, or_else. intros UP.
  destruct (interpolate (multi_idea_count p)) as [count|]; [|discriminate].
  destruct (interpolate (domain p)) as [domain'|]; [|discriminate].
  destruct (interpolate (audience p)) as [audience'|]; [|discriminate].
  destruct (interpolate (difficulty p)) as [difficulty'|]; [|discriminate].
  destruct (interpolate (time_available_days p)) as [days|]; [|discriminate].
  destruct (interpolate (mode p)) as [mode'|]; [|discriminate].
  destruct (truthy (skills p)) eqn:TS; destruct (truthy (constraints p)) eqn:TC;
    cbn [interpolate to_string] in UP;
    repeat match type of UP with
      | context [interpolate ?v] => destruct (interpolate v); [|discriminate]
      end;
    inversion UP; subst prompt; unfold prompt_text;
    (split; [|split; [|split]]); intros T; try discriminate;
    try (eexists; split; [reflexivity|]);
    first [ do 7 apply contains_behind; apply contains_front
          | do 8 apply contains_behind; apply contains_front ].
Qed.


(** ** Further properties of the controller *)

Lemma eqb_eq a b : JsString.eqb a b = true <-> a = b.
Proof.
  revert b. induction a as [|x a IH]; intros [|y b]; simpl;
    try (split; [discriminate|discriminate]); [tauto|].
  rewrite andb_true_iff, N.eqb_eq, IH. split.
  - intros [-> ->]. reflexivity.
  - intros H. inversion H. auto.
Qed.

Lemma eqb_refl a : JsString.eqb a a = true.
Proof. apply eqb_eq. reflexivity. Qed.

Lemma eqb_neq a b : a <> b -> JsString.eqb a b = false.
Proof.
  intros N. destruct (JsString.eqb a b) eqn:E; [|reflexivity].
  apply eqb_eq in E. contradiction.
Qed.

(** Reading a key back after it was defined. *)
Lemma obj_get_set {A} k (v : A) m : obj_get k (obj_set k v m) = Some v.
Proof.
  induction m as [|[k' v'] m IH]; simpl.
  - rewrite eqb_refl. reflexivity.
  - destruct (JsString.eqb k k') eqn:E; simpl; rewrite E; [reflexivity|exact IH].
Qed.

(** Defining a key leaves the other keys alone. *)
Lemma obj_get_set_other {A} k k0 (v : A) m :
  k0 <> k -> obj_get k0 (obj_set k v m) = obj_get k0 m.
Proof.
  intros N. induction m as [|[k' v'] m IH]; simpl.
  - rewrite (eqb_neq _ _ N). reflexivity.
  - destruct (JsString.eqb k k') eqn:E; simpl.
    + apply eqb_eq in E. subst k'. rewrite (eqb_neq _ _ N). reflexivity.
    + destruct (JsString.eqb k0 k'); [reflexivity|exact IH].
Qed.

Lemma attempt_effects gateway formData :
  exists rest,
    fst (attempt gateway formData) = ui_fetch (generate_call formData) :: rest
    /\ Forall (fun e => is_ui_fetch e = false /\ sets_loading e = false) rest.
Proof.
  rewrite attempt_spec. cbv zeta.
  destruct (gateway (generate_call formData)) as [r|e];
    [|eexists; split; [reflexivity|constructor]].
  destruct (JSON_parse (upstream_text r)) as [d|];
    [|eexists; split; [reflexivity|constructor]].
  destruct (ok r); destruct d; try destruct (isArray _);
    eexists; (split; [reflexivity|repeat constructor]).
Qed.

Lemma filter_none {A} (f : A -> bool) l : Forall (fun e => f e = false) l -> filter f l = [].
Proof.
  induction 1 as [|e l E _ IH]; [reflexivity|]. simpl. rewrite E. exact IH.
Qed.

(** X11. Every run of [handleGenerate] sends exactly one request, and
    its body is the form data with [multi_idea_count] set to 3: the key
    reads 3 whatever the form held under it, and every other key reads
    as in the form. *)
Theorem generate_request_shape gateway formData :
  filter is_ui_fetch (fst (handleGenerate gateway formData))
  = [ui_fetch (generate_call formData)]
  /\ exists sent,
      fetch_json (generate_call formData) = JObject sent
      /\ obj_get (str "multi_idea_count") sent = Some (JNumber (Number false 3 0))
      /\ forall k, k <> str "multi_idea_count" -> obj_get k sent = obj_get k formData.
Proof.
  split.
  - rewrite handleGenerate_spec. simpl fst.
    destruct (attempt_effects gateway formData) as (rest & -> & F).
    assert (filter is_ui_fetch rest = []) as R.
    { apply filter_none. eapply Forall_impl; [|exact F]. simpl. tauto. }
    simpl. rewrite !filter_app, R. simpl.
    destruct (snd (attempt gateway formData)) as [[]|e]; reflexivity.
  - eexists. split; [reflexivity|]. split.
    + apply obj_get_set.
    + intros k N. apply obj_get_set_other. exact N.
Qed.

(** X12. The notification of a failed generation, by the kind of
    failure: a rejected request shows the error's message, or "Failed to
    generate ideas. Please try again." when what was thrown is no
    [Error]; a body that is not JSON shows the engine's message; an ok
    answer whose body is [null] shows the engine's message for reading
    [ideas] of [null]; any other ok answer without an array under
    [ideas] shows "Invalid response format". *)
Theorem failure_notifications gateway formData :
  (forall message,
      gateway (generate_call formData) = Rejects (ErrorObject message) ->
      toasts (fst (handleGenerate gateway formData)) = [toast_error message])
  /\ (gateway (generate_call formData) = Rejects NonError ->
      toasts (fst (handleGenerate gateway formData))
      = [toast_error (str "Failed to generate ideas. Please try again.")])
  /\ (forall r,
         gateway (generate_call formData) = Responds r ->
         JSON_parse (upstream_text r) = None ->
         toasts (fst (handleGenerate gateway formData))
         = [toast_error (engine_message (JsonSyntax (upstream_text r)))])
  /\ (forall r d,
         gateway (generate_call formData) = Responds r -> ok r = true ->
         JSON_parse (upstream_text r) = Some d ->
         isArray (own "ideas" d) = false ->
         toasts (fst (handleGenerate gateway formData))
         = [toast_error match d with
                        | JNull => engine_message (ReadOfNullish (str "ideas"))
                        | _ => str "Invalid response format"
                        end]).
Proof.
  rewrite handleGenerate_spec, attempt_spec. cbv zeta. simpl fst.
  split; [|split; [|split]].
  - intros message G. rewrite G. reflexivity.
  - intros G. rewrite G. reflexivity.
  - intros r G P. rewrite G, P. reflexivity.
  - intros r d G O P A. rewrite G, P, O.
    destruct d; try rewrite A; reflexivity.
Qed.


Lemma run_without_loading st l :
  Forall (fun e => sets_loading e = false) l -> isLoading (run st l) = isLoading st.
Proof.
  intros F. revert st. induction F as [|e l E _ IH]; intros st; [reflexivity|].
  change (run st (e :: l)) with (run (apply st e) l).
  rewrite IH. destruct e; try reflexivity. discriminate.
Qed.

(** Between its first and its last effect a run does not touch the
    loading flag. *)
Lemma handleGenerate_frame gateway formData :
  exists mid,
    fst (handleGenerate gateway formData)
    = setIsLoading true :: mid ++ [setIsLoading false]
    /\ Forall (fun e => sets_loading e = false) mid.
Proof.
  rewrite handleGenerate_spec. simpl fst.
  destruct (attempt_effects gateway formData) as (rest & -> & F).
  exists (setIdeas [] :: (ui_fetch (generate_call formData) :: rest)
            ++ match snd (attempt gateway formData) with
               | Normal _ => []
               | Throws e => catch_effects e
               end).
  split.
  - simpl. rewrite <- app_assoc. reflexivity.
  - constructor; [reflexivity|]. apply Forall_app. split.
    + constructor; [reflexivity|]. eapply Forall_impl; [|exact F]. simpl. tauto.
    + destruct (snd (attempt gateway formData)); repeat constructor.
Qed.

(** X13. The loading flag stays set for the whole of a run: after any
    effect of [handleGenerate] but the last, whatever the state before,
    the flag is true. *)
Theorem loading_until_the_end gateway formData st before behind :
  fst (handleGenerate gateway formData) = before ++ behind ->
  before <> [] ->
  behind <> [] ->
  isLoading (run st before) = true.
Proof.
  intros E NB NE. destruct (handleGenerate_frame gateway formData) as (mid & F & Q).
  rewrite F in E. destruct before as [|b before]; [congruence|].
  destruct (@exists_last _ behind NE) as (bh & z & ->).
  simpl in E. inversion E as [[Eb Em]]. subst b.
  rewrite app_assoc in Em. apply app_inj_tail in Em. destruct Em as (Em & _).
  rewrite Em in Q. apply Forall_app in Q. destruct Q as (Q & _).
  change (run st (setIsLoading true :: before))
    with (run (apply st (setIsLoading true)) before).
  rewrite (run_without_loading _ _ Q). reflexivity.
Qed.

(** *** Rendering *)

Lemma combine_seq_fst {A} (l : list A) : forall n,
  map fst (combine (seq n (List.length l)) l) = seq n (List.length l).
Proof.
  induction l as [|x l IH]; intros n; [reflexivity|]. simpl. f_equal. apply IH.
Qed.

Lemma combine_seq_snd {A} (l : list A) : forall n,
  map snd (combine (seq n (List.length l)) l) = l.
Proof.
  induction l as [|x l IH]; intros n; [reflexivity|]. simpl. f_equal. apply IH.
Qed.

(** X14. What [Index] renders: the results section exactly when there
    are ideas, with one card per idea, in order, keyed by its position;
    the empty state exactly when nothing is loading and there are no
    ideas; never both, and neither while loading without ideas. *)
Theorem Index_sections st :
  (results_section (Index st) = None <-> ideas st = [])
  /\ (forall cards,
         results_section (Index st) = Some cards ->
         map snd cards = ideas st
         /\ map fst cards = seq 0 (List.length (ideas st)))
  /\ (empty_state (Index st) = true <-> isLoading st = false /\ ideas st = [])
  /\ (empty_state (Index st) = true -> results_section (Index st) = None)
  /\ (isLoading st = true -> ideas st = [] ->
      results_section (Index st) = None /\ empty_state (Index st) = false).
Proof.
  destruct st as [l loading]. unfold Index. simpl.
  split; [|split; [|split; [|split]]].
  - destruct l; simpl; split; congruence.
  - intros cards. destruct l as [|x l]; [discriminate|].
    change (0 <? List.length (x :: l))%nat with true. cbv iota.
    intros H. inversion H. split.
    + apply (combine_seq_snd (x :: l) 0%nat).
    + apply (combine_seq_fst (x :: l) 0%nat).
  - destruct loading, l; simpl; intuition congruence.
  - destruct loading, l; simpl; congruence.
  - intros -> ->. split; reflexivity.
Qed.


(** ** The gateway and the controller together *)

Lemma outcome_cases upstream req response :
  Outcome upstream req response ->
  (status response = 200
   /\ exists props, body response = Stringified (JObject props))
  \/ ((status response = 400 \/ status response = 500)
      /\ exists message, body response = Stringified (error_body message)).
Proof.
  intros O.
  destruct O as [ received P NN Mi | received u P NN Mi U Ok | text l v MR D
                | text l e block v MR D J B | text l e block MR D J B | text l e MR D J
                | log e O ];
    try (right; split; [simpl; auto|eexists; reflexivity]).
  - left. split; [reflexivity|].
    destruct (direct_normal _ _ _ D) as (_ & props & items & -> & _).
    eexists. reflexivity.
  - left. split; [reflexivity|].
    destruct (jsonMatch_some _ _ J) as (pre & mid & post & _ & -> & _).
    destruct (JSON_parse_braced _ _ B) as [props ->]. eexists. reflexivity.
Qed.

(** X15. When the controller's request is answered by the gateway's
    response to a request that is not a preflight, an error response of
    the gateway (status 400 or 500) leaves the results empty and shows
    the gateway's [error] text (the generic text if it is empty); a 200
    response shows the success text and its [ideas] array as results,
    or, when its object has no such array, "Invalid response format". *)
Theorem gateway_response_reaches_the_user upstream req gateway formData st r :
  JsString.eqb (method req) (str "OPTIONS") = false ->
  gateway (generate_call formData) = Responds r ->
  delivered (snd (serve upstream req)) r ->
  (status (snd (serve upstream req)) <> 200 ->
   exists message,
     body (snd (serve upstream req)) = Stringified (error_body message)
     /\ ideas (run st (fst (handleGenerate gateway formData))) = []
     /\ toasts (fst (handleGenerate gateway formData))
        = [toast_error match message with
                       | [] => str "Failed to generate ideas"
                       | _ => message
                       end])
  /\ (status (snd (serve upstream req)) = 200 ->
      exists v,
        body (snd (serve upstream req)) = Stringified v
        /\ (forall items,
               own "ideas" v = Some (JArray items) ->
               ideas (run st (fst (handleGenerate gateway formData))) = items
               /\ toasts (fst (handleGenerate gateway formData))
                  = [toast_success (str "3 amazing ideas generated!")])
        /\ (isArray (own "ideas" v) = false ->
            ideas (run st (fst (handleGenerate gateway formData))) = []
            /\ toasts (fst (handleGenerate gateway formData))
               = [toast_error (str "Invalid response format")])).
Proof.
  intros Hm G (S & v & B & P).
  rewrite handleGenerate_spec, attempt_spec. cbv zeta. rewrite G, P. simpl fst.
  destruct (outcome_cases _ _ _ (serve_outcome upstream req Hm))
    as [(S200 & props & B200)|(S45 & message & Berr)].
  - assert (ok r = true) as Ok by (unfold ok; rewrite S, S200; reflexivity).
    rewrite Ok. split; [congruence|]. intros _. exists v. split; [exact B|].
    rewrite B in B200. inversion B200; subst v. split.
    + intros items I. simpl in I. simpl own. rewrite I. simpl. auto.
    + intros A. rewrite A. simpl. auto.
  - assert (ok r = false) as Ok
        by (unfold ok; rewrite S; destruct S45 as [-> | ->]; reflexivity).
    rewrite Ok. split; [|destruct S45; congruence]. intros _. exists message.
    split; [exact Berr|]. rewrite B in Berr. inversion Berr; subst v.
    unfold supplied_or_generic. destruct message; simpl; auto.
Qed.


(** *** The content type *)

Lemma outcome_json upstream req response :
  Outcome upstream req response -> exists st v, response = json_response st v.
Proof. intros O. destruct O; eexists _, _; reflexivity. Qed.

(** X16. Every response with a body declares it as JSON: the preflight
    answer carries no [Content-Type], every other response carries
    [Content-Type: application/json]. *)
Theorem content_type_of_responses upstream req :
  obj_get (str "Content-Type") (headers (snd (serve upstream req)))
  = if JsString.eqb (method req) (str "OPTIONS")
    then None
    else Some (str "application/json").
Proof.
  destruct (JsString.eqb (method req) (str "OPTIONS")) eqn:Hm.
  - rewrite serve_preflight by exact Hm. reflexivity.
  - destruct (outcome_json _ _ _ (serve_outcome upstream req Hm)) as (st & v & ->).
    reflexivity.
Qed.

End Runtime.

(** ** Concrete runs *)

(** The gateway of the runs. *)
(** The prompt of the sample request. *)
Definition sample_prompt : jsstring :=
  prompt_text (str "3") (str "fitness") (str "students") (str "beginner") (str "3")
    (str "hackathon") (str "Not specified") (str "None specified").

Definition gateway_run (upstream : FetchCall -> FetchOutcome) (req : Request)
  : list Effect * Response :=
  serve sample_message integer_to_string sample_key upstream req.




Lemma fenced_reply_round_trip_witness :
  model_reply sample_message integer_to_string sample_key
    (answering 200 fenced_reply) sample_request fenced_reply
  /\ snd (direct sample_message fenced_reply) = Normal empty_ideas
  /\ status (snd (gateway_run (answering 200 fenced_reply) sample_request)) = 200
  /\ body (snd (gateway_run (answering 200 fenced_reply) sample_request))
     = Stringified (JObject [(str "ideas", JArray [])]).
Proof.
  assert (model_reply sample_message integer_to_string sample_key
            (answering 200 fenced_reply) sample_request fenced_reply) as MR.
  { split; reflexivity. }
  split; [exact MR|].
  destruct (fenced_reply_round_trip sample_message integer_to_string sample_key
              (answering 200 fenced_reply) sample_request MR)
    as (_ & _ & D & _ & S & B).
  split; [rewrite D; reflexivity|]. split; [exact S|exact B].
Defined.



Lemma unrecoverable_reply_errors_witness :
  (model_reply sample_message integer_to_string sample_key
     (answering 200 plain_reply) sample_request plain_reply
   /\ snd (gateway_run (answering 200 plain_reply) sample_request)
      = json_response 500 (error_body no_json_message))
  /\ (model_reply sample_message integer_to_string sample_key
        (answering 200 broken_reply) sample_request broken_reply
      /\ status (snd (gateway_run (answering 200 broken_reply) sample_request)) = 500
      /\ body (snd (gateway_run (answering 200 broken_reply) sample_request))
         = Stringified (error_body parse_failed_message)).
Proof.
  assert (model_reply sample_message integer_to_string sample_key
            (answering 200 plain_reply) sample_request plain_reply) as MR1.
  { split; reflexivity. }
  assert (model_reply sample_message integer_to_string sample_key
            (answering 200 broken_reply) sample_request broken_reply) as MR2.
  { split; reflexivity. }
  split; (split; [assumption|]).
  - assert (~ has_braces plain_reply) as NB.
    { intros (pre & mid & post & E).
      assert (In lbrace plain_reply) as I by (rewrite E; apply in_elt).
      vm_compute in I. intuition discriminate. }
    destruct (proj1 (unrecoverable_reply_errors sample_message integer_to_string
                       sample_key (answering 200 plain_reply)
                       sample_request plain_reply MR1) NB) as (S & B).
    reflexivity.
  - refine (proj2 (unrecoverable_reply_errors sample_message integer_to_string sample_key (answering 200 broken_reply) sample_request
                     broken_reply MR2)
              (str "Here you go: ") (str "ideas: none") (str " enjoy")
              (ErrorObject (sample_message (JsonSyntax broken_reply)))
              eq_refl eq_refl _ _ eq_refl).
    + vm_compute. intuition discriminate.
    + vm_compute. intuition discriminate.
Defined.

Lemma upstream_error_mapped_to_500_witness :
  status (snd (gateway_run rate_limited sample_request)) = 500
  /\ body (snd (gateway_run rate_limited sample_request))
     = Stringified (JObject [(str "error", JString (str "OpenAI API error: 429"))]).
Proof.
  pose proof (upstream_error_mapped_to_500 sample_message integer_to_string sample_key rate_limited sample_request
                (completion_call sample_key sample_prompt)
                _ (or_intror (or_introl eq_refl)) eq_refl eq_refl) as (S & B & _).
  split; [exact S|exact B].
Defined.

Definition page_run (gateway : FetchCall -> FetchOutcome) (formData : list (jsstring * JSON))
  : PageState :=
  run initial
    (fst (handleGenerate sample_message integer_to_string
            (Some (str "https://project.supabase.co"))
            (Some (str "anon-key")) gateway formData)).

Lemma empty_ideas_treated_as_success_witness :
  ideas (page_run no_ideas_gateway sample_form) = []
  /\ isLoading (page_run no_ideas_gateway sample_form) = false
  /\ results_section (Index (page_run no_ideas_gateway sample_form)) = None
  /\ empty_state (Index (page_run no_ideas_gateway sample_form)) = true
  /\ toasts (fst (handleGenerate sample_message integer_to_string
                    (Some (str "https://project.supabase.co"))
                    (Some (str "anon-key")) no_ideas_gateway sample_form))
     = [toast_success (str "3 amazing ideas generated!")].
Proof.
  pose proof (empty_ideas_treated_as_success sample_message integer_to_string
                (Some (str "https://project.supabase.co"))
                (Some (str "anon-key")) no_ideas_gateway sample_form initial
                _ empty_ideas [] eq_refl eq_refl eq_refl eq_refl) as (T & I & L & R).
  destruct (R eq_refl) as (RS & ES).
  unfold page_run. repeat split; assumption.
Defined.

(** *** Runs for the further properties *)

Lemma object_reply_relayed_witness :
  model_reply sample_message integer_to_string sample_key
    (answering 200 escape_hatch_reply) sample_request escape_hatch_reply
  /\ status (snd (gateway_run (answering 200 escape_hatch_reply) sample_request)) = 200
  /\ body (snd (gateway_run (answering 200 escape_hatch_reply) sample_request))
     = Stringified escape_hatch.
Proof.
  assert (model_reply sample_message integer_to_string sample_key
            (answering 200 escape_hatch_reply) sample_request escape_hatch_reply) as MR.
  { split; reflexivity. }
  split; [exact MR|].
  refine (object_reply_relayed sample_message integer_to_string sample_key
            (answering 200 escape_hatch_reply) sample_request escape_hatch_reply
            escape_hatch MR eq_refl eq_refl _).
  eexists. reflexivity.
Defined.

Lemma unusable_request_bodies_witness :
  snd (gateway_run (answering 200 []) garbled_request)
  = json_response 500 (error_body (str "Unexpected token in JSON"))
  /\ snd (gateway_run (answering 200 []) array_request)
     = json_response 400 (error_body missing_fields_message)
  /\ outbound (fst (gateway_run (answering 200 []) array_request)) = [].
Proof.
  destruct (unusable_request_bodies sample_message integer_to_string sample_key
              (answering 200 []) garbled_request eq_refl) as (Garbled & _ & _).
  destruct (unusable_request_bodies sample_message integer_to_string sample_key
              (answering 200 []) array_request eq_refl) as (_ & _ & Other).
  destruct (Garbled eq_refl) as (G & _).
  destruct (Other (JArray [JNumber (Number false 1 0); JNumber (Number false 2 0)])
              eq_refl ltac:(discriminate)
              ltac:(intros [props E]; discriminate)) as (A & Q).
  split; [exact G|]. split; [exact A|exact Q].
Defined.

(** A body that passes validation and has no prompt: nothing is sent. *)
Lemma unprintable_domain_run :
  outbound (fst (gateway_run (answering 200 fenced_reply) unprintable_request)) = []
  /\ snd (gateway_run (answering 200 fenced_reply) unprintable_request)
     = json_response 500 (error_body (str "Cannot convert object to primitive value")).
Proof. split; reflexivity. Qed.

Lemma rejected_call_answered_500_witness :
  status (snd (gateway_run failing_network sample_request)) = 500
  /\ body (snd (gateway_run failing_network sample_request))
     = Stringified (JObject [(str "error", JString (str "error sending request"))]).
Proof.
  refine (rejected_call_answered_500 sample_message integer_to_string sample_key
            failing_network sample_request
            (completion_call sample_key sample_prompt)
            (ErrorObject (str "error sending request")) _ eq_refl).
  right. left. reflexivity.
Defined.

Lemma success_needs_completion_witness :
  status (snd (gateway_run (answering 200 fenced_reply) sample_request)) = 200
  /\ exists call u data,
      In (fetch_sent call) (fst (gateway_run (answering 200 fenced_reply) sample_request))
      /\ answering 200 fenced_reply call = Responds u
      /\ ok u = true
      /\ JSON_parse (upstream_text u) = Some data.
Proof.
  split; [reflexivity|].
  apply (success_needs_completion sample_message integer_to_string sample_key
           (answering 200 fenced_reply) sample_request eq_refl eq_refl).
Defined.

Lemma unusable_completion_answered_500_witness :
  snd (gateway_run no_choices sample_request)
  = json_response 500
      (error_body (str "Cannot read properties of undefined (reading 'message')")).
Proof.
  destruct (unusable_completion_answered_500 sample_message integer_to_string sample_key
              no_choices sample_request
              (completion_call sample_key sample_prompt)
              {| upstream_status := 200;
                 upstream_text := str "{" ++ quoted "choices" ++ str ":[]}" |}
              (or_intror (or_introl eq_refl)) eq_refl eq_refl) as (_ & Empty & _).
  exact (Empty (JObject [(str "choices", JArray [])]) eq_refl eq_refl).
Defined.

Lemma prompt_placeholders_witness :
  userPrompt integer_to_string (fields (JObject sample_form)) = Some sample_prompt
  /\ contains (line (str "Skills: Not specified")) sample_prompt = true
  /\ contains (line (str "Constraints: None specified")) sample_prompt = true.
Proof.
  destruct (prompt_placeholders integer_to_string (fields (JObject sample_form))
              sample_prompt eq_refl) as (S & C & _).
  split; [reflexivity|]. split; [apply S; reflexivity|apply C; reflexivity].
Defined.

Definition sample_effects : list UiEffect :=
  fst (handleGenerate sample_message integer_to_string
         (Some (str "https://project.supabase.co"))
         (Some (str "anon-key")) no_ideas_gateway sample_form).

Lemma loading_until_the_end_witness :
  List.length sample_effects = 6%nat
  /\ isLoading (run initial (firstn 5 sample_effects)) = true.
Proof.
  split; [reflexivity|].
  apply (loading_until_the_end sample_message integer_to_string
           (Some (str "https://project.supabase.co"))
           (Some (str "anon-key")) no_ideas_gateway sample_form initial
           (firstn 5 sample_effects) (skipn 5 sample_effects)).
  - symmetry. apply firstn_skipn.
  - vm_compute. discriminate.
  - vm_compute. discriminate.
Defined.

Lemma gateway_response_reaches_the_user_witness :
  delivered (snd (gateway_run (answering 200 []) empty_request))
    {| upstream_status := 400;
       upstream_text :=
         str "{" ++ quoted "error" ++ str ":"
         ++ quoted "Missing required fields: domain, audience, difficulty, time_available_days, mode"
         ++ str "}" |}
  /\ toasts (fst (handleGenerate sample_message integer_to_string
                    (Some (str "https://project.supabase.co"))
                    (Some (str "anon-key")) rejecting_gateway sample_form))
     = [toast_error missing_fields_message].
Proof.
  assert (delivered (snd (gateway_run (answering 200 []) empty_request))
            {| upstream_status := 400;
               upstream_text :=
                 str "{" ++ quoted "error" ++ str ":"
                 ++ quoted "Missing required fields: domain, audience, difficulty, time_available_days, mode"
                 ++ str "}" |}) as D.
  { split; [reflexivity|]. eexists. split; reflexivity. }
  split; [exact D|].
  destruct (gateway_response_reaches_the_user sample_message integer_to_string sample_key
              (Some (str "https://project.supabase.co"))
              (Some (str "anon-key"))
              (answering 200 []) empty_request rejecting_gateway sample_form initial
              _ eq_refl eq_refl D) as (Err & _).
  destruct (Err ltac:(discriminate)) as (message & B & _ & T).
  inversion B. subst message. exact T.
Defined.
